(** * UIDAI Aadhaar analytics dashboard: the data pipeline of [app.py]

    The dashboard script reads three CSV tables (enrolment, demographic
    updates, biometric updates), normalises their [date] column, narrows them
    to one state, and derives scalar totals, monthly series, an anomaly flag
    and a rolling mean.  This file embeds that pipeline and proves the
    properties stated about it.

    Modelling conventions.
    - A DataFrame is a header (the column names) and a list of rows.  A row
      carries the [state] cell ([None] is pandas' NaN), the [date] cell, the
      derived [month] cell and the numeric cells by column name; a numeric
      cell that is missing is NaN and, as with pandas' default [skipna], adds
      nothing to a sum.
    - Counts are integers ([Z]).  A monthly period is its ordinal, the number
      of months since January 1970, which is how pandas stores [Period[M]].
    - float64 results (mean, standard deviation, z-score, rolling mean) are
      modelled by real numbers extended with NaN and the two infinities;
      rounding is not modelled.
    - [pd.to_datetime] is library code: the pipeline is parametrised by the
      parser of one date text.
    - The script is a program over a store of DataFrame objects that can
      raise FileNotFoundError and KeyError; the select box is a function
      from the options to the option chosen.
    - Streamlit and Plotly are library code: the calls that are given
      computed data are steps of the script, in source order, and the
      script is parametrised by what each such call raises, if anything. *)

From Stdlib Require Import Ascii String.
From Stdlib Require Import Datatypes List ZArith Lia Bool Sorted Permutation.
From Stdlib Require Import Reals Lra Psatz.
From Stdlib Require Decimal DecimalString DecimalPos DecimalZ.
Import ListNotations.

Local Open Scope string_scope.
Local Open Scope list_scope.
Local Open Scope Z_scope.

(** ** Data model *)

(** The [date] column: text as read from the CSV, then datetime64 values
    once [pd.to_datetime] has run ([NaT] for a value that did not parse). *)
Inductive datecell : Type :=
  | Text (s : string)
  | NaT
  | Stamp (y m d : Z).

Record Row : Type := mkRow {
  state : option string;
  date : datecell;
  month : option Z;
  counts : list (string * Z)
}.

Record DataFrame : Type := mkDF {
  columns : list string;
  rows : list Row
}.

(** A monthly series: month ordinal and value, in index order. *)
Definition Series : Type := list (Z * Z).

Fixpoint assoc {A : Type} (c : string) (l : list (string * A)) : option A :=
  match l with
  | [] => None
  | (k, v) :: l' => if String.eqb c k then Some v else assoc c l'
  end.

(** The numeric cell of column [c] in row [r], as [sum] sees it. *)
Definition cell (c : string) (r : Row) : Z :=
  match assoc c (counts r) with
  | Some v => v
  | None => 0
  end.

Definition zsum (l : list Z) : Z := fold_right Z.add 0 l.

(** ** Scalar totals: [df[cols].sum().sum()] *)

(** [df[cols].sum()]: one sum per selected column. *)
Definition column_sums (cols : list string) (rs : list Row) : list Z :=
  map (fun c => zsum (map (cell c) rs)) cols.

Definition total (cols : list string) (rs : list Row) : Z :=
  zsum (column_sums cols rs).

Definition enrol_cols : list string := ["age_0_5"; "age_5_17"; "age_18_greater"].
Definition demo_cols : list string := ["demo_age_5_17"; "demo_age_17_"].
Definition bio_cols : list string := ["bio_age_5_17"; "bio_age_17_"].

(** The sum of one row over the selected columns. *)
Definition row_sum (cols : list string) (r : Row) : Z :=
  zsum (map (fun c => cell c r) cols).

(** ** Date normalisation *)

Section DateFix.

(** [pd.to_datetime(text, format='%d-%m-%Y', errors='coerce')] on one
    text: year, month and day, or nothing when the text does not parse. *)
Variable strptime : string -> option (Z * Z * Z).

Definition to_datetime (d : datecell) : datecell :=
  match d with
  | Text s =>
      match strptime s with
      | Some (y, m, dd) => Stamp y m dd
      | None => NaT
      end
  | NaT => NaT
  | Stamp y m dd => Stamp y m dd
  end.

(** [.dt.to_period('M')]: the month ordinal; NaT stays NaT. *)
Definition to_period (d : datecell) : option Z :=
  match d with
  | Stamp y m _ => Some ((y - 1970) * 12 + (m - 1))
  | NaT => None
  | Text _ => None
  end.

(** [df['date'] = pd.to_datetime(df['date'], ...)] on one row. *)
Definition set_date (r : Row) : Row :=
  mkRow (state r) (to_datetime (date r)) (month r) (counts r).

(** [df['month'] = df['date'].dt.to_period('M')] on one row. *)
Definition set_month (r : Row) : Row :=
  mkRow (state r) (date r) (to_period (date r)) (counts r).

(** The two assignments of the loop body, on one row. *)
Definition fix_row (r : Row) : Row := set_month (set_date r).

End DateFix.

(** ** State filter *)

(** [df['state'] == s] on one row: NaN compares unequal to everything. *)
Definition state_is (s : string) (r : Row) : bool :=
  match state r with
  | Some t => String.eqb t s
  | None => false
  end.

(** [df[df['state'] == s]]: a new frame with the same header. *)
Definition select_state (s : string) (df : DataFrame) : DataFrame :=
  mkDF (columns df) (filter (state_is s) (rows df)).

(** [dropna()] on the state column. *)
Fixpoint dropna (rs : list Row) : list string :=
  match rs with
  | [] => []
  | r :: rs' =>
      match state r with
      | Some s => s :: dropna rs'
      | None => dropna rs'
      end
  end.

Definition mem (s : string) (l : list string) : bool :=
  existsb (String.eqb s) l.

(** [unique()]: distinct values in order of first appearance. *)
Fixpoint unique_from (seen : list string) (l : list string) : list string :=
  match l with
  | [] => []
  | s :: l' =>
      if mem s seen then unique_from seen l'
      else s :: unique_from (s :: seen) l'
  end.

Definition unique (l : list string) : list string := unique_from [] l.

Fixpoint insert_sorted (s : string) (l : list string) : list string :=
  match l with
  | [] => [s]
  | t :: l' => if String.leb s t then s :: l else t :: insert_sorted s l'
  end.

(** Python's [sorted] on strings (code point order). *)
Definition sorted (l : list string) : list string :=
  fold_right insert_sorted [] l.

(** The state values offered below the sentinel. *)
Definition state_values (enrol : DataFrame) : list string :=
  sorted (unique (dropna (rows enrol))).

(** The choice set of the select box. *)
Definition state_options (enrol : DataFrame) : list string :=
  "All" :: state_values enrol.

(** The frame a name is bound to after the filter block, for the
    selection [st]. *)
Definition filtered (st : string) (df : DataFrame) : DataFrame :=
  if negb (String.eqb st "All") then select_state st df else df.

(** The total of [cols] over the frame filtered by each of [sts] in turn,
    summed. *)
Definition per_state_total (cols : list string) (sts : list string)
  (df : DataFrame) : Z :=
  zsum (map (fun st => total cols (rows (filtered st df))) sts).

(** The state cell of [r] is NaN. *)
Definition null_state (r : Row) : bool :=
  match state r with
  | Some _ => false
  | None => true
  end.

(** The state cell of [r] is one of [sts]. *)
Definition covered (sts : list string) (r : Row) : bool :=
  match state r with
  | Some s => mem s sts
  | None => false
  end.

(** ** Aggregator *)

(** [groupby('month')]: rows are collected under their month key, keys kept
    in ascending order (pandas sorts group keys), rows with a null month
    dropped (pandas' default [dropna=True]). *)
Fixpoint insert_group (k : Z) (r : Row) (g : list (Z * list Row))
  : list (Z * list Row) :=
  match g with
  | [] => [(k, [r])]
  | (k', rs) :: g' =>
      if k <? k' then (k, [r]) :: g
      else if k =? k' then (k', rs ++ [r]) :: g'
      else (k', rs) :: insert_group k r g'
  end.

Definition add_row (g : list (Z * list Row)) (r : Row) : list (Z * list Row) :=
  match month r with
  | Some k => insert_group k r g
  | None => g
  end.

Definition groupby_month (rs : list Row) : list (Z * list Row) :=
  fold_left add_row rs [].

(** [df.groupby('month')[cols].sum().sum(axis=1)]. *)
Definition monthly_sum (cols : list string) (rs : list Row) : Series :=
  map (fun kg => (fst kg, zsum (column_sums cols (snd kg)))) (groupby_month rs).

Definition keys (s : Series) : list Z := map fst s.

Fixpoint get (k : Z) (s : Series) : option Z :=
  match s with
  | [] => None
  | (k', v) :: s' => if k =? k' then Some v else get k s'
  end.

Fixpoint insert_key (k : Z) (l : list Z) : list Z :=
  match l with
  | [] => [k]
  | k' :: l' =>
      if k <? k' then k :: l
      else if k =? k' then l
      else k' :: insert_key k l'
  end.

(** Index alignment of [Series.add]: an equal index is kept as it is,
    otherwise the sorted union of both. *)
Definition union_index (a b : list Z) : list Z :=
  if list_eq_dec Z.eq_dec a b then a else fold_right insert_key [] (a ++ b).

Definition fill0 (o : option Z) : Z :=
  match o with
  | Some v => v
  | None => 0
  end.

(** [a.add(b, fill_value=0)]. *)
Definition add_fill0 (a b : Series) : Series :=
  map (fun k => (k, fill0 (get k a) + fill0 (get k b)))
      (union_index (keys a) (keys b)).

(** ** float64 values *)

Inductive float64 : Type :=
  | NaN
  | PInf
  | NInf
  | Fin (x : R).

Definition fsub (a b : float64) : float64 :=
  match a, b with
  | NaN, _ | _, NaN => NaN
  | PInf, PInf | NInf, NInf => NaN
  | PInf, _ | _, NInf => PInf
  | NInf, _ | _, PInf => NInf
  | Fin x, Fin y => Fin (x - y)
  end.

Definition fdiv (a b : float64) : float64 :=
  match a, b with
  | NaN, _ | _, NaN => NaN
  | Fin x, Fin y =>
      if Req_dec_T y 0 then
        if Req_dec_T x 0 then NaN
        else if Rlt_dec 0 x then PInf else NInf
      else Fin (x / y)
  | Fin _, _ => Fin 0
  | PInf, Fin y => if Rlt_dec y 0 then NInf else PInf
  | NInf, Fin y => if Rlt_dec y 0 then PInf else NInf
  | _, _ => NaN
  end.

Definition fabs (a : float64) : float64 :=
  match a with
  | NaN => NaN
  | PInf | NInf => PInf
  | Fin x => Fin (Rabs x)
  end.

(** [a > t]: a comparison with NaN is false. *)
Definition fgt (a : float64) (t : R) : bool :=
  match a with
  | NaN | NInf => false
  | PInf => true
  | Fin x => if Rlt_dec t x then true else false
  end.

Definition rsum (l : list R) : R := fold_right Rplus 0%R l.

Definition values (s : Series) : list R := map (fun kv => IZR (snd kv)) s.

(** ** Anomaly detector *)

(** [Series.mean()]: NaN on an empty series. *)
Definition mean (vs : list R) : float64 :=
  match vs with
  | [] => NaN
  | _ => Fin (rsum vs / INR (length vs))
  end.

(** The sum of squared deviations from [m]. *)
Definition sqdev (m : R) (vs : list R) : R :=
  rsum (map (fun x => (x - m) * (x - m))%R vs).

(** [Series.std()]: sample standard deviation (ddof = 1), NaN below two
    points. *)
Definition std (vs : list R) : float64 :=
  match vs with
  | [] | [_] => NaN
  | _ =>
      let n := INR (length vs) in
      Fin (sqrt (sqdev (rsum vs / n) vs / (n - 1)))
  end.

Definition z_scores (s : Series) : list float64 :=
  let vs := values s in
  map (fun x => fdiv (fsub (Fin x) (mean vs)) (std vs)) vs.

(** Boolean-mask selection [df[mask]]. *)
Fixpoint select_mask {A : Type} (l : list A) (m : list bool) : list A :=
  match l, m with
  | x :: l', b :: m' => if b then x :: select_mask l' m' else select_mask l' m'
  | _, _ => []
  end.

(** [df_monthly_total[z_scores.abs() > 2]]. *)
Definition anomalies (s : Series) : Series :=
  select_mask s (map (fun z => fgt (fabs z) 2) (z_scores s)).

(** ** Trend estimator *)

(** The trailing window of width [w] ending at position [i]. *)
Definition window {A : Type} (w : nat) (l : list A) (i : nat) : list A :=
  skipn (S i - w) (firstn (S i) l).

(** [rolling(w).mean()]: NaN until the window holds [w] observations. *)
Definition rolling_mean (w : nat) (vs : list R) : list float64 :=
  map (fun i =>
         let win := window w vs i in
         if (length win <? w)%nat then NaN
         else Fin (rsum win / INR (length win)))
      (seq 0 (length vs)).

(** [monthly_total.rolling(3).mean()], with the index of the input. *)
Definition rolling_avg (s : Series) : list (Z * float64) :=
  List.combine (keys s) (rolling_mean 3 (values s)).

(** ** Metric text: [f"{int(total):,}"] *)

(** A comma after every third character, from the left of the list. *)
Fixpoint group3 (l : list ascii) : list ascii :=
  match l with
  | a :: b :: c :: ((_ :: _) as rest) =>
      a :: b :: c :: ","%char :: group3 rest
  | _ => l
  end.

(** The digits with a comma before every group of three, counted from the
    right. *)
Definition thousands (digits : string) : string :=
  string_of_list_ascii (rev (group3 (rev (list_ascii_of_string digits)))).

(** Python's [format(n, ',')] on an integer. *)
Definition format_int (n : Z) : string :=
  match Z.to_int n with
  | Decimal.Pos d => thousands (DecimalString.NilZero.string_of_uint d)
  | Decimal.Neg d =>
      String "-" (thousands (DecimalString.NilZero.string_of_uint d))
  end.

(** The text without its commas. *)
Definition strip_commas (s : string) : string :=
  string_of_list_ascii
    (filter (fun c => negb (Ascii.eqb c ",")) (list_ascii_of_string s)).

(** ** Age distribution *)

(** [enrol[cols].sum().reset_index()]: the age groups with their counts. *)
Definition age_dist (df : DataFrame) : list (string * Z) :=
  List.combine enrol_cols (column_sums enrol_cols (rows df)).

(** ** The script: object store, exceptions and the stages in order *)

(** [ViewError] is an exception raised inside a Streamlit or Plotly call,
    by its class name. *)
Inductive exn : Type :=
  | FileNotFoundError (path : string)
  | KeyError (col : string)
  | ViewError (name : string).

(** The calls into the presentation layer that are given computed data,
    with that data: the three metrics (lines 59-62), the line chart over the
    two monthly series joined side by side (lines 76-87), the anomaly chart
    (lines 118-134), the rolling trend chart (lines 143-152) and the age pie
    (lines 164-174). *)
Inductive view : Type :=
  | Metrics (enrolments demographic biometric : string)
  | TrendChart (demographic biometric : Series)
  | AnomalyChart (totals flagged : Series)
  | RollingChart (totals : Series) (rolling : list (Z * float64))
  | AgePie (dist : list (string * Z)).

(** DataFrames are objects: a variable holds a reference into the store. *)
Definition loc : Type := nat.
Definition Heap : Type := list DataFrame.

Definition M (A : Type) : Type := Heap -> (exn + A) * Heap.

Definition ret {A : Type} (a : A) : M A := fun h => (inr a, h).

Definition raise {A : Type} (e : exn) : M A := fun h => (inl e, h).

Definition bind {A B : Type} (c : M A) (k : A -> M B) : M B :=
  fun h =>
    match c h with
    | (inl e, h') => (inl e, h')
    | (inr a, h') => k a h'
    end.

Notation "x <- c ;; k" := (bind c (fun x => k))
  (at level 61, c at next level, right associativity).
Notation "c ;;; k" := (bind c (fun _ => k))
  (at level 61, right associativity).

Definition empty_frame : DataFrame := mkDF [] [].

Definition alloc (df : DataFrame) : M loc :=
  fun h => (inr (length h), h ++ [df]).

Definition deref (l : loc) : M DataFrame :=
  fun h => (inr (nth l h empty_frame), h).

Fixpoint update (l : loc) (df : DataFrame) (h : Heap) {struct h} : Heap :=
  match h, l with
  | [], _ => []
  | _ :: h', O => df :: h'
  | d :: h', S l' => d :: update l' df h'
  end.

Definition assign (l : loc) (df : DataFrame) : M unit :=
  fun h => (inr tt, update l df h).

(** [df[c]] raises KeyError when the header lacks [c]. *)
Definition getitem (c : string) (df : DataFrame) : M unit :=
  if mem c (columns df) then ret tt else raise (KeyError c).

(** [df[cols]]: the first missing name is reported. *)
Fixpoint getitems (cols : list string) (df : DataFrame) : M unit :=
  match cols with
  | [] => ret tt
  | c :: cols' => getitem c df ;;; getitems cols' df
  end.

(** [df[c] = ...]: the column is replaced in place, or appended. *)
Definition setitem (l : loc) (c : string) (f : Row -> Row) : M unit :=
  df <- deref l ;;
  assign l (mkDF (if mem c (columns df) then columns df else columns df ++ [c])
                 (map f (rows df))).

Record Env : Type := mkEnv {
  enrol : loc;
  demo : loc;
  bio : loc
}.

Record Outputs : Type := mkOutputs {
  total_enrol : Z;
  total_demo : Z;
  total_bio : Z;
  monthly_demo : Series;
  monthly_bio : Series;
  monthly_total : Series;
  anomalies_found : Series;
  rolling_trend : list (Z * float64)
}.

Section Script.

Variable strptime : string -> option (Z * Z * Z).

(** The files of the working directory. *)
Variable fs : string -> option DataFrame.

(** The presentation layer (Streamlit and Plotly are library code): the
    exception a call raises, if it raises one. *)
Variable render : view -> option exn.

Definition show (v : view) : M unit :=
  fun h =>
    match render v with
    | Some e => (inl e, h)
    | None => (inr tt, h)
    end.

Definition read_csv (path : string) : M loc :=
  match fs path with
  | Some df => alloc df
  | None => raise (FileNotFoundError path)
  end.

Definition load_data : M Env :=
  e <- read_csv "api_data_aadhar_enrolment.csv" ;;
  d <- read_csv "api_data_aadhar_demograp.csv" ;;
  b <- read_csv "api_data_aadhar_biometric.csv" ;;
  ret (mkEnv e d b).

(** The body of the date loop on one frame. *)
Definition date_fix (l : loc) : M unit :=
  df <- deref l ;;
  getitem "date" df ;;;
  setitem l "date" (set_date strptime) ;;;
  df' <- deref l ;;
  getitem "date" df' ;;;
  setitem l "month" set_month.

Definition date_fix_all (e : Env) : M unit :=
  date_fix (enrol e) ;;; date_fix (demo e) ;;; date_fix (bio e).

(** The options of the select box, from the enrolment frame. *)
Definition options (e : Env) : M (list string) :=
  df <- deref (enrol e) ;;
  getitem "state" df ;;;
  ret (state_options df).

Definition filter_frame (st : string) (l : loc) : M loc :=
  df <- deref l ;;
  getitem "state" df ;;;
  alloc (select_state st df).

(** The three filtered frames are new objects bound to the old names. *)
Definition filter_stage (st : string) (e : Env) : M Env :=
  if negb (String.eqb st "All") then
    e' <- filter_frame st (enrol e) ;;
    d' <- filter_frame st (demo e) ;;
    b' <- filter_frame st (bio e) ;;
    ret (mkEnv e' d' b')
  else ret e.

Definition frame_total (cols : list string) (l : loc) : M Z :=
  df <- deref l ;;
  getitems cols df ;;;
  ret (total cols (rows df)).

Definition frame_monthly (cols : list string) (l : loc) : M Series :=
  df <- deref l ;;
  getitem "month" df ;;;
  getitems cols df ;;;
  ret (monthly_sum cols (rows df)).

Definition frame_age_dist (l : loc) : M (list (string * Z)) :=
  df <- deref l ;;
  getitems enrol_cols df ;;;
  ret (age_dist df).

(** The stages after the filter, on the frames the names are bound to,
    with the presentation calls where the source has them. *)
Definition analyse (e : Env) : M Outputs :=
  te <- frame_total enrol_cols (enrol e) ;;
  td <- frame_total demo_cols (demo e) ;;
  tb <- frame_total bio_cols (bio e) ;;
  show (Metrics (format_int te) (format_int td) (format_int tb)) ;;;
  md <- frame_monthly demo_cols (demo e) ;;
  mb <- frame_monthly bio_cols (bio e) ;;
  show (TrendChart md mb) ;;;
  let mt := add_fill0 md mb in
  let flagged := anomalies mt in
  show (AnomalyChart mt flagged) ;;;
  let rolling := rolling_avg mt in
  show (RollingChart mt rolling) ;;;
  dist <- frame_age_dist (enrol e) ;;
  show (AgePie dist) ;;;
  ret (mkOutputs te td tb md mb mt flagged rolling).

(** One run of the script; [pick] is the select box: it returns the
    option the user chose.  The page set-up, headers, static texts and the
    static advice table take no computed data and are left out. *)
Definition app (pick : list string -> string) : M Outputs :=
  e <- load_data ;;
  date_fix_all e ;;;
  opts <- options e ;;
  e' <- filter_stage (pick opts) e ;;
  analyse e'.

End Script.

(** Row [r] belongs to month [k]. *)
Definition has_month (k : Z) (r : Row) : bool :=
  match month r with
  | Some m => m =? k
  | None => false
  end.

(** The month cell of [r] is null. *)
Definition null_month (r : Row) : bool :=
  match month r with
  | Some _ => false
  | None => true
  end.

(** The anomaly contract in the words of the specification: no month is
    flagged on a series of fewer than two points or of zero standard
    deviation; otherwise a month is flagged when the absolute deviation of
    its value from the mean, divided by the sample standard deviation, is
    greater than 2. *)
Definition detectAnomalies (s : Series) : Series :=
  let vs := values s in
  let n := INR (length vs) in
  let mu := (rsum vs / n)%R in
  let sigma := sqrt (sqdev mu vs / (n - 1)) in
  if (length vs <? 2)%nat then []
  else if Req_dec_T sigma 0 then []
  else filter (fun kv =>
                 if Rlt_dec 2 (Rabs (IZR (snd kv) - mu) / sigma) then true
                 else false) s.

(** A frame after the body of the date loop ran on it. *)
Definition date_fixed (strptime : string -> option (Z * Z * Z))
  (df : DataFrame) : DataFrame :=
  mkDF (if mem "month" (columns df) then columns df else columns df ++ ["month"])
       (map (fix_row strptime) (rows df)).

(** The frames the three names are bound to. *)
Definition frames (e : Env) (h : Heap) : DataFrame * DataFrame * DataFrame :=
  (nth (enrol e) h empty_frame, nth (demo e) h empty_frame,
   nth (bio e) h empty_frame).

(** The three names point into the store, at frames with a state column. *)
Definition loaded (e : Env) (h : Heap) : bool :=
  (enrol e <? length h)%nat && (demo e <? length h)%nat
  && (bio e <? length h)%nat
  && mem "state" (columns (nth (enrol e) h empty_frame))
  && mem "state" (columns (nth (demo e) h empty_frame))
  && mem "state" (columns (nth (bio e) h empty_frame)).

(** The header of [df] has every column of [cols]. *)
Definition has_columns (cols : list string) (df : DataFrame) : bool :=
  forallb (fun c => mem c (columns df)) cols.

(** The values the data steps of the script compute from the three tables
    as read (date loop, selection, filter, totals, monthly series, anomalies
    and trend): the outputs of a run in which no step raises.  Whether a run
    gets there is stated on [app]. *)
Definition pipeline (strptime : string -> option (Z * Z * Z))
  (pick : list string -> string) (E D B : DataFrame) : Outputs :=
  let E' := date_fixed strptime E in
  let D' := date_fixed strptime D in
  let B' := date_fixed strptime B in
  let st := pick (state_options E') in
  let md := monthly_sum demo_cols (rows (filtered st D')) in
  let mb := monthly_sum bio_cols (rows (filtered st B')) in
  let mt := add_fill0 md mb in
  mkOutputs (total enrol_cols (rows (filtered st E')))
            (total demo_cols (rows (filtered st D')))
            (total bio_cols (rows (filtered st B')))
            md mb mt (anomalies mt) (rolling_avg mt).

(** A demographic source without the [state] column. *)
Definition demo_no_state : DataFrame :=
  mkDF ("date" :: demo_cols)
       [mkRow None (Text "01-03-2025") None
              [("demo_age_5_17", 4); ("demo_age_17_", 5)]].

(** The select box set to Goa. *)
Definition pick_goa (opts : list string) : string :=
  if mem "Goa" opts then "Goa" else hd "All" opts.

(** Five quiet months and one month that differs. *)
Definition series_lone_spike : Series :=
  [(660, 7); (661, 7); (662, 8); (663, 7); (664, 7); (665, 7)].

(** Every value of a series raised by the same amount. *)
Definition shift (a : Z) (s : Series) : Series :=
  map (fun kv => (fst kv, snd kv + a)) s.

(** A presentation layer in which no call raises. *)
Definition render_ok (v : view) : option exn := None.

(** The first exception among the presentation calls [vs], in order. *)
Fixpoint first_raise (render : view -> option exn) (vs : list view)
  : option exn :=
  match vs with
  | [] => None
  | v :: vs' =>
      match render v with
      | Some e => Some e
      | None => first_raise render vs'
      end
  end.

(** The presentation calls of a run in source order, for the outputs [o]
    and the age distribution [dist]. *)
Definition views_of (o : Outputs) (dist : list (string * Z)) : list view :=
  [Metrics (format_int (total_enrol o)) (format_int (total_demo o))
           (format_int (total_bio o));
   TrendChart (monthly_demo o) (monthly_bio o);
   AnomalyChart (monthly_total o) (anomalies_found o);
   RollingChart (monthly_total o) (rolling_trend o);
   AgePie dist].

(** How a run ends once its data steps have succeeded: with the first
    exception of a presentation call, or with the outputs. *)
Definition presented (render : view -> option exn) (o : Outputs)
  (dist : list (string * Z)) : exn + Outputs :=
  match first_raise render (views_of o dist) with
  | Some e => inl e
  | None => inr o
  end.

(** A presentation layer in which the line chart of the two monthly series
    raises ValueError when both are empty. *)
Definition render_no_empty_chart (v : view) : option exn :=
  match v with
  | TrendChart [] [] => Some (ViewError "ValueError")
  | _ => None
  end.

(** ** int64 sums *)

(** The value an int64 holds for the exact result [z]: numpy's integer
    addition wraps around. *)
Definition wrap64 (z : Z) : Z := (z + 2 ^ 63) mod 2 ^ 64 - 2 ^ 63.

(** [sum()] over int64 values. *)
Definition sum64 (l : list Z) : Z :=
  fold_right (fun x acc => wrap64 (x + acc)) 0 l.

(** [df[cols].sum().sum()] on int64 columns, that is on columns without an
    empty cell. *)
Definition total64 (cols : list string) (rs : list Row) : Z :=
  sum64 (map (fun c => sum64 (map (cell c) rs)) cols).

(** ** Sample tables *)



Definition enrol_header : list string := "date" :: "state" :: enrol_cols.
Definition demo_header : list string := "date" :: "state" :: demo_cols.
Definition bio_header : list string := "date" :: "state" :: bio_cols.

Definition enrol_row (st : option string) (d : string) (a b c : Z) : Row :=
  mkRow st (Text d) None
        [("age_0_5", a); ("age_5_17", b); ("age_18_greater", c)].

Definition demo_row (st : option string) (d : string) (a b : Z) : Row :=
  mkRow st (Text d) None [("demo_age_5_17", a); ("demo_age_17_", b)].

Definition bio_row (st : option string) (d : string) (a b : Z) : Row :=
  mkRow st (Text d) None [("bio_age_5_17", a); ("bio_age_17_", b)].

(** Two states, every update record from one of them. *)
Definition enrol_two : DataFrame :=
  mkDF enrol_header
       [enrol_row (Some "Kerala") "01-03-2025" 5 10 85;
        enrol_row (Some "Goa") "02-03-2025" 1 2 3;
        enrol_row (Some "Kerala") "01-04-2025" 7 0 1].

Definition demo_two : DataFrame :=
  mkDF demo_header
       [demo_row (Some "Goa") "01-03-2025" 4 5;
        demo_row (Some "Kerala") "01-04-2025" 6 7].

Definition bio_two : DataFrame :=
  mkDF bio_header [bio_row (Some "Kerala") "15-03-2025" 2 9].

(** A demographic record from a state the enrolment table does not have. *)
Definition enrol_kerala : DataFrame :=
  mkDF enrol_header [enrol_row (Some "Kerala") "01-03-2025" 5 10 85].

Definition demo_goa : DataFrame :=
  mkDF demo_header [demo_row (Some "Goa") "01-03-2025" 4 5].

(** An enrolment record without a state, with and without counts. *)
Definition enrol_null_zero : DataFrame :=
  mkDF enrol_header
       [enrol_row (Some "Kerala") "01-03-2025" 5 10 85;
        enrol_row None "02-03-2025" 0 0 0].

Definition enrol_null_counts : DataFrame :=
  mkDF enrol_header
       [enrol_row (Some "Kerala") "01-03-2025" 5 10 85;
        enrol_row None "02-03-2025" 1 2 3].

(** A working directory holding the three sources. *)
Definition files (E D B : DataFrame) (path : string) : option DataFrame :=
  if String.eqb path "api_data_aadhar_enrolment.csv" then Some E
  else if String.eqb path "api_data_aadhar_demograp.csv" then Some D
  else if String.eqb path "api_data_aadhar_biometric.csv" then Some B
  else None.

(** A demographic source without the [date] column, and a biometric source
    without one of its metric columns. *)
Definition demo_no_date : DataFrame :=
  mkDF ("state" :: demo_cols)
       [demo_row (Some "Goa") "" 4 5; demo_row (Some "Kerala") "" 6 7].

Definition bio_no_metric : DataFrame :=
  mkDF ["date"; "state"; "bio_age_5_17"]
       [mkRow (Some "Kerala") (Text "15-03-2025") None [("bio_age_5_17", 2)]].

(** The select box left at its first option. *)
Definition pick_first (opts : list string) : string := hd "All" opts.

(** The select box set to Kerala. *)
Definition pick_kerala (opts : list string) : string :=
  if mem "Kerala" opts then "Kerala" else hd "All" opts.

(** A parser for the examples, after the format '%d-%m-%Y': a day of one
    or two digits, a dash, a month of one or two digits, a dash, a year of
    four digits, naming a day of the Gregorian calendar.  The limits pandas
    puts on the range of a timestamp are not modelled. *)
Definition digit (c : ascii) : option Z :=
  let n := Z.of_N (N_of_ascii c) - 48 in
  if (0 <=? n) && (n <=? 9) then Some n else None.

Fixpoint number (acc : Z) (cs : list ascii) : option Z :=
  match cs with
  | [] => Some acc
  | c :: cs' =>
      match digit c with
      | Some d => number (10 * acc + d) cs'
      | None => None
      end
  end.

(** The fields between the dashes. *)
Fixpoint split_dash (cs : list ascii) : list (list ascii) :=
  match cs with
  | [] => [[]]
  | c :: cs' =>
      if Ascii.eqb c "-" then [] :: split_dash cs'
      else
        match split_dash cs' with
        | f :: fs => (c :: f) :: fs
        | [] => [[c]]
        end
  end.

Definition leap_year (y : Z) : bool :=
  ((y mod 4 =? 0) && negb (y mod 100 =? 0)) || (y mod 400 =? 0).

Definition days_in_month (y m : Z) : Z :=
  if m =? 2 then (if leap_year y then 29 else 28)
  else if (m =? 4) || (m =? 6) || (m =? 9) || (m =? 11) then 30
  else 31.

Definition strptime_dmy (s : string) : option (Z * Z * Z) :=
  match split_dash (list_ascii_of_string s) with
  | [df; mf; yf] =>
      if ((length df =? 1) || (length df =? 2))%nat
         && ((length mf =? 1) || (length mf =? 2))%nat
         && (length yf =? 4)%nat
      then
        match number 0 df, number 0 mf, number 0 yf with
        | Some d, Some m, Some y =>
            if (1 <=? y) && (1 <=? m) && (m <=? 12) && (1 <=? d)
               && (d <=? days_in_month y m)
            then Some (y, m, d) else None
        | _, _, _ => None
        end
      else None
  | _ => None
  end.

(** The store right after [load_data] on the two-state sources. *)
Definition store_two : Heap := [enrol_two; demo_two; bio_two].

(** Two series on disjoint months. *)
Definition series_march : Series := [(662, 9); (664, 4)].
Definition series_april : Series := [(661, 2); (663, 13)].

(** Four consecutive months with the values 10, 20, 30, 40. *)
Definition series_four : Series := [(660, 10); (661, 20); (662, 30); (663, 40)].

(** Six months at the same value. *)
Definition series_constant : Series :=
  [(660, 100); (661, 100); (662, 100); (663, 100); (664, 100); (665, 100)].

(** Five months with one value far from the others. *)
Definition series_spike : Series :=
  [(660, 0); (661, 0); (662, 0); (663, 0); (664, 1000000)].

(** Demographic records with their month set: two of March 2025, one of
    April 2025 listed first, and one whose date did not parse. *)
Definition demo_by_month : list Row :=
  [mkRow (Some "Kerala") (Stamp 2025 4 1) (Some 663)
         [("demo_age_5_17", 6); ("demo_age_17_", 7)];
   mkRow (Some "Goa") (Stamp 2025 3 1) (Some 662)
         [("demo_age_5_17", 4); ("demo_age_17_", 5)];
   mkRow (Some "Goa") NaT None
         [("demo_age_5_17", 100); ("demo_age_17_", 100)];
   mkRow (Some "Kerala") (Stamp 2025 3 9) (Some 662)
         [("demo_age_5_17", 1); ("demo_age_17_", 2)]].

(** A table whose two counts add up to 2^63. *)
Definition enrol_overflow : DataFrame :=
  mkDF enrol_header
       [enrol_row (Some "Kerala") "01-03-2025" 9223372036854775807 0 0;
        enrol_row (Some "Goa") "01-03-2025" 1 0 0].

(** * Properties *)

(** ** Sums *)

Lemma zsum_app (a b : list Z) : zsum (a ++ b) = zsum a + zsum b.
Proof.
  induction a as [|x a IH]; simpl; [reflexivity | rewrite IH; lia].
Qed.

Lemma total_nil (cols : list string) : total cols [] = 0.
Proof.
  unfold total, column_sums.
  induction cols as [|c cols IH]; simpl; [reflexivity | exact IH].
Qed.

Lemma total_cons (cols : list string) (r : Row) (rs : list Row) :
  total cols (r :: rs) = row_sum cols r + total cols rs.
Proof.
  unfold total, column_sums, row_sum.
  induction cols as [|c cols IH]; simpl in *; [reflexivity | lia].
Qed.

Lemma total_by_rows (cols : list string) (rs : list Row) :
  total cols rs = zsum (map (row_sum cols) rs).
Proof.
  induction rs as [|r rs IH]; simpl.
  - apply total_nil.
  - rewrite total_cons, IH. reflexivity.
Qed.

Lemma total_app (cols : list string) (a b : list Row) :
  total cols (a ++ b) = total cols a + total cols b.
Proof.
  induction a as [|r a IH]; simpl.
  - rewrite total_nil. reflexivity.
  - rewrite !total_cons, IH. lia.
Qed.

Lemma total_filter_split (cols : list string) (f : Row -> bool) (rs : list Row) :
  total cols rs
  = total cols (filter f rs) + total cols (filter (fun r => negb (f r)) rs).
Proof.
  induction rs as [|r rs IH]; simpl.
  - rewrite total_nil. reflexivity.
  - destruct (f r); simpl; rewrite !total_cons, IH; lia.
Qed.

(** ** The choice set *)

Lemma mem_In (s : string) (l : list string) : mem s l = true <-> In s l.
Proof.
  unfold mem. rewrite existsb_exists. split.
  - intros [t [Ht E]]. apply String.eqb_eq in E. subst. exact Ht.
  - intros H. exists s. split; [exact H | apply String.eqb_refl].
Qed.

Lemma mem_false (s : string) (l : list string) : mem s l = false <-> ~ In s l.
Proof.
  rewrite <- mem_In. destruct (mem s l); split; congruence.
Qed.

Lemma dropna_In (s : string) (rs : list Row) :
  In s (dropna rs) <-> exists r, In r rs /\ state r = Some s.
Proof.
  induction rs as [|r rs IH]; simpl.
  - split; [tauto | intros [r [[] _]]].
  - destruct (state r) as [t|] eqn:E; simpl; rewrite IH; split.
    + intros [->|[r' [H1 H2]]]; [exists r | exists r']; auto.
    + intros [r' [[<-|H1] H2]]; [left; congruence | right; exists r'; auto].
    + intros [r' [H1 H2]]. exists r'; auto.
    + intros [r' [[<-|H1] H2]]; [congruence | exists r'; auto].
Qed.

Lemma unique_from_In (s : string) (l seen : list string) :
  In s (unique_from seen l) <-> In s l /\ ~ In s seen.
Proof.
  revert seen. induction l as [|t l IH]; intros seen; simpl.
  - tauto.
  - destruct (mem t seen) eqn:E.
    + apply mem_In in E. rewrite IH. split.
      * intros [H1 H2]. auto.
      * intros [[->|H1] H2]; [contradiction | auto].
    + apply mem_false in E. simpl. rewrite IH. simpl. split.
      * intros [->|[H1 H2]]; [auto | split; [auto | tauto]].
      * intros [[->|H1] H2]; [auto |].
        destruct (string_dec t s) as [->|N]; [auto | right; tauto].
Qed.

Lemma unique_from_NoDup (l seen : list string) : NoDup (unique_from seen l).
Proof.
  revert seen. induction l as [|t l IH]; intros seen; simpl.
  - constructor.
  - destruct (mem t seen) eqn:E; [apply IH |].
    constructor; [| apply IH].
    rewrite unique_from_In. simpl. tauto.
Qed.

Lemma insert_sorted_perm (s : string) (l : list string) :
  Permutation (s :: l) (insert_sorted s l).
Proof.
  induction l as [|t l IH]; simpl; [reflexivity |].
  destruct (String.leb s t); [reflexivity |].
  rewrite perm_swap. constructor. exact IH.
Qed.

Lemma sorted_perm (l : list string) : Permutation l (sorted l).
Proof.
  induction l as [|s l IH]; simpl; [constructor |].
  rewrite <- insert_sorted_perm. constructor. exact IH.
Qed.

Lemma state_values_In (s : string) (df : DataFrame) :
  In s (state_values df) <-> exists r, In r (rows df) /\ state r = Some s.
Proof.
  unfold state_values, unique. rewrite <- dropna_In. split; intros H.
  - apply (Permutation_in _ (Permutation_sym (sorted_perm _))) in H.
    apply unique_from_In in H. tauto.
  - apply (Permutation_in _ (sorted_perm _)).
    apply unique_from_In. simpl. tauto.
Qed.

Lemma state_values_NoDup (df : DataFrame) : NoDup (state_values df).
Proof.
  unfold state_values, unique.
  eapply Permutation_NoDup; [apply sorted_perm | apply unique_from_NoDup].
Qed.

(** ** Per-state totals *)

Lemma zsum_map_add {A : Type} (f g : A -> Z) (l : list A) :
  zsum (map (fun a => f a + g a) l) = zsum (map f l) + zsum (map g l).
Proof.
  induction l as [|a l IH]; simpl; [reflexivity | rewrite IH; lia].
Qed.

Lemma zsum_map_zero {A : Type} (l : list A) : zsum (map (fun _ => 0) l) = 0.
Proof.
  induction l as [|a l IH]; simpl; [reflexivity | exact IH].
Qed.

Lemma state_is_not_in (sts : list string) (r : Row) (x : Z) :
  covered sts r = false ->
  zsum (map (fun st => if state_is st r then x else 0) sts) = 0.
Proof.
  unfold covered, state_is. destruct (state r) as [s|].
  - intros H. apply mem_false in H.
    induction sts as [|t sts IH]; simpl; [reflexivity |].
    destruct (String.eqb_spec s t) as [->|N].
    + exfalso. apply H. left. reflexivity.
    + rewrite IH; [reflexivity |]. intros K. apply H. right. exact K.
  - intros _. apply zsum_map_zero.
Qed.

Lemma state_is_once (sts : list string) (r : Row) (x : Z) :
  NoDup sts ->
  zsum (map (fun st => if state_is st r then x else 0) sts)
  = if covered sts r then x else 0.
Proof.
  intros ND. destruct (covered sts r) eqn:C; [| apply state_is_not_in; exact C].
  induction ND as [|t sts Ht ND IH].
  { unfold covered in C. destruct (state r); simpl in C; discriminate C. }
  simpl. unfold covered in C. unfold state_is at 1.
  destruct (state r) as [s|] eqn:E; [| discriminate C].
  simpl in C. destruct (String.eqb_spec s t) as [->|N].
  - rewrite state_is_not_in; [lia |].
    unfold covered. rewrite E. apply mem_false. exact Ht.
  - simpl in C. rewrite IH; [reflexivity |].
    unfold covered. rewrite E. exact C.
Qed.

Lemma select_totals (cols : list string) (sts : list string) (rs : list Row) :
  NoDup sts ->
  zsum (map (fun st => total cols (filter (state_is st) rs)) sts)
  = total cols (filter (covered sts) rs).
Proof.
  intros ND. induction rs as [|r rs IH]; simpl.
  - rewrite total_nil. apply zsum_map_zero.
  - rewrite (map_ext _ (fun st => (if state_is st r then row_sum cols r else 0)
                                  + total cols (filter (state_is st) rs))).
    + rewrite zsum_map_add, IH, state_is_once by exact ND.
      destruct (covered sts r); [rewrite total_cons |]; reflexivity.
    + intros st. destruct (state_is st r); [apply total_cons | reflexivity].
Qed.

Lemma per_state_total_covered (cols sts : list string) (df : DataFrame) :
  NoDup sts -> ~ In "All" sts ->
  per_state_total cols sts df = total cols (filter (covered sts) (rows df)).
Proof.
  intros ND NA. unfold per_state_total.
  rewrite <- select_totals by exact ND. f_equal.
  apply map_ext_in. intros st Hst. unfold filtered.
  destruct (String.eqb_spec st "All") as [->|_]; [contradiction | reflexivity].
Qed.

Lemma filter_all {A : Type} (f : A -> bool) (l : list A) :
  (forall a, In a l -> f a = true) -> filter f l = l.
Proof.
  induction l as [|a l IH]; simpl; intros H; [reflexivity |].
  rewrite (H a) by (left; reflexivity).
  f_equal. apply IH. intros b Hb. apply H. right. exact Hb.
Qed.

(** The gap between the unfiltered total and the per-state totals is the
    total of the rows no offered state selects. *)
Lemma total_gap (cols sts : list string) (df : DataFrame) :
  NoDup sts -> ~ In "All" sts ->
  total cols (rows df)
  = per_state_total cols sts df
    + total cols (filter (fun r => negb (covered sts r)) (rows df)).
Proof.
  intros ND NA. rewrite per_state_total_covered by assumption.
  apply total_filter_split.
Qed.

Lemma covered_not_null (sts : list string) (r : Row) :
  covered sts r = true -> null_state r = false.
Proof.
  unfold covered, null_state. destruct (state r); [reflexivity | discriminate].
Qed.

Lemma per_state_total_all_covered (cols sts : list string) (df : DataFrame) :
  NoDup sts -> ~ In "All" sts ->
  forallb (covered sts) (rows df) = true ->
  per_state_total cols sts df = total cols (rows df).
Proof.
  intros ND NA H. rewrite per_state_total_covered by assumption.
  rewrite filter_all; [reflexivity |].
  rewrite forallb_forall in H. exact H.
Qed.

(** C1 (as stated): with the enrolment table holding only Kerala and the
    demographic table holding a record of Goa, the per-state demographic
    totals sum to 0 while the unfiltered demographic total is 9. *)
Lemma partition_fails_foreign_state :
  state_values enrol_kerala = ["Kerala"]
  /\ per_state_total demo_cols (state_values enrol_kerala) demo_goa = 0
  /\ total demo_cols (rows demo_goa) = 9.
Proof.
  repeat split; vm_compute; reflexivity.
Qed.

(** C1 (amended): when no state is named like the sentinel and the state of
    every record of the three tables is one of the values offered by the
    select box, the per-state totals of each table, summed over the offered
    values, equal the unfiltered totals. *)
Theorem partition_of_totals (E D B : DataFrame) :
  mem "All" (state_values E) = false ->
  forallb (covered (state_values E)) (rows E ++ rows D ++ rows B) = true ->
  per_state_total enrol_cols (state_values E) E = total enrol_cols (rows E)
  /\ per_state_total demo_cols (state_values E) D = total demo_cols (rows D)
  /\ per_state_total bio_cols (state_values E) B = total bio_cols (rows B).
Proof.
  intros NA H. apply mem_false in NA.
  rewrite !forallb_app in H.
  apply andb_prop in H. destruct H as [HE H].
  apply andb_prop in H. destruct H as [HD HB].
  pose proof (state_values_NoDup E) as ND.
  repeat split; apply per_state_total_all_covered; assumption.
Qed.

Lemma partition_of_totals_witness :
  per_state_total enrol_cols (state_values enrol_two) enrol_two = 114
  /\ per_state_total enrol_cols (state_values enrol_two) enrol_two
     = total enrol_cols (rows enrol_two)
  /\ per_state_total demo_cols (state_values enrol_two) demo_two
     = total demo_cols (rows demo_two)
  /\ per_state_total bio_cols (state_values enrol_two) bio_two
     = total bio_cols (rows bio_two).
Proof.
  split; [vm_compute; reflexivity |].
  apply (partition_of_totals enrol_two demo_two bio_two); vm_compute; reflexivity.
Defined.

(** C10 (as stated): a record with a null state whose counts are all zero
    leaves the per-state totals equal to the unfiltered total. *)
Lemma null_state_zero_counts_partition :
  existsb null_state (rows enrol_null_zero) = true
  /\ per_state_total enrol_cols (state_values enrol_null_zero) enrol_null_zero
     = total enrol_cols (rows enrol_null_zero).
Proof.
  split; vm_compute; reflexivity.
Qed.

Lemma covered_or_null (E : DataFrame) (r : Row) :
  In r (rows E) -> negb (covered (state_values E) r) = null_state r.
Proof.
  intros Hr. unfold covered, null_state.
  destruct (state r) as [s|] eqn:Es; [| reflexivity].
  assert (In s (state_values E)) as Hs
    by (apply state_values_In; exists r; auto).
  apply mem_In in Hs. rewrite Hs. reflexivity.
Qed.

(** C10 (amended): a record whose state is null adds no selectable value, is
    in no per-state view, and is in the unfiltered view; the unfiltered total
    of the enrolment table is the sum of its per-state totals plus the total
    of its null-state records, so the per-state totals miss the unfiltered
    total exactly by the counts of the null-state records. *)
Theorem null_state_outside_partition (cols : list string) (E : DataFrame) :
  (forall s, In s (state_options E) ->
     s = "All" \/ exists r, In r (rows E) /\ state r = Some s)
  /\ (forall st r, st <> "All" -> state r = None ->
        ~ In r (rows (filtered st E)))
  /\ rows (filtered "All" E) = rows E
  /\ (~ In "All" (state_values E) ->
      total cols (rows E)
      = per_state_total cols (state_values E) E
        + total cols (filter null_state (rows E))).
Proof.
  repeat split.
  - intros s [<-|H]; [left; reflexivity | right].
    apply state_values_In. exact H.
  - intros st r Hst Hr. unfold filtered.
    destruct (String.eqb_spec st "All") as [->|_]; [contradiction |].
    simpl. rewrite filter_In. unfold state_is. rewrite Hr.
    intros [_ K]. discriminate K.
  - intros NA.
    rewrite (total_gap cols (state_values E) E (state_values_NoDup E) NA).
    f_equal. f_equal. apply filter_ext_in. intros r Hr.
    apply covered_or_null. exact Hr.
Qed.

Lemma null_state_outside_partition_witness :
  total enrol_cols (rows enrol_null_counts)
  = per_state_total enrol_cols (state_values enrol_null_counts) enrol_null_counts
    + 6.
Proof.
  destruct (null_state_outside_partition enrol_cols enrol_null_counts)
    as [_ [_ [_ H]]].
  rewrite H.
  - vm_compute. reflexivity.
  - apply mem_false. vm_compute. reflexivity.
Defined.

(** ** Records whose date does not parse *)

Lemma groupby_month_skip (l1 l2 : list Row) (r : Row) :
  month r = None ->
  groupby_month (l1 ++ r :: l2) = groupby_month (l1 ++ l2).
Proof.
  intros H. unfold groupby_month. rewrite !fold_left_app. simpl.
  unfold add_row at 2. rewrite H. reflexivity.
Qed.

Lemma row_sum_fix_row (strptime : string -> option (Z * Z * Z))
  (cols : list string) (r : Row) :
  row_sum cols (fix_row strptime r) = row_sum cols r.
Proof.
  reflexivity.
Qed.

Lemma date_fix_ok (strptime : string -> option (Z * Z * Z)) (l : loc) (h : Heap) :
  mem "date" (columns (nth l h empty_frame)) = true ->
  date_fix strptime l h
  = (inr tt, update l (date_fixed strptime (nth l h empty_frame)) h).
Proof.
  intros H. assert (l < length h)%nat as Hl.
  { destruct (Nat.lt_ge_cases l (length h)) as [K|K]; [exact K |].
    rewrite nth_overflow in H by exact K. discriminate H. }
  cbv [date_fix bind deref getitem setitem assign ret raise].
  rewrite H. cbv beta iota.
  assert (forall df, nth l (update l df h) empty_frame = df) as Hsame.
  { clear H. revert l Hl. induction h as [|d h IH]; intros l Hl df; simpl in *.
    - lia.
    - destruct l; [reflexivity | apply IH; lia]. }
  assert (forall a b, update l a (update l b h) = update l a h) as Htwice.
  { clear. revert l. induction h as [|d h IH]; intros l a b; simpl.
    - reflexivity.
    - destruct l; simpl; [reflexivity | rewrite IH; reflexivity]. }
  do 3 (rewrite ?Hsame; cbn [columns rows]; rewrite ?H; cbv beta iota).
  rewrite Htwice. unfold date_fixed, fix_row. rewrite map_map. reflexivity.
Qed.

Lemma date_fix_keyerror (strptime : string -> option (Z * Z * Z))
  (l : loc) (h : Heap) :
  mem "date" (columns (nth l h empty_frame)) = false ->
  date_fix strptime l h = (inl (KeyError "date"), h).
Proof.
  intros H. cbv [date_fix bind deref getitem raise]. rewrite H. reflexivity.
Qed.

(** C7: a date text that does not parse raises nothing: the loop body
    succeeds on a frame that has the [date] column whatever its texts are;
    the record's date becomes NaT and its month null; the monthly sums, and
    with them the combined series, its anomalies and its rolling mean, are
    those of the table without the record; the scalar total still counts the
    record. *)
Theorem unparsed_date_tolerated (strptime : string -> option (Z * Z * Z))
  (cols : list string) (l1 l2 : list Row) (r : Row) (s : string)
  (other : Series) (hd : list string) :
  date r = Text s -> strptime s = None ->
  let tbl := mkDF ("date" :: hd) (l1 ++ r :: l2) in
  let rest := mkDF ("date" :: hd) (l1 ++ l2) in
  fst (date_fix strptime 0%nat [tbl]) = inr tt
  /\ snd (date_fix strptime 0%nat [tbl]) = [date_fixed strptime tbl]
  /\ date (fix_row strptime r) = NaT
  /\ month (fix_row strptime r) = None
  /\ monthly_sum cols (rows (date_fixed strptime tbl))
     = monthly_sum cols (rows (date_fixed strptime rest))
  /\ anomalies (add_fill0 (monthly_sum cols (rows (date_fixed strptime tbl))) other)
     = anomalies (add_fill0 (monthly_sum cols (rows (date_fixed strptime rest))) other)
  /\ rolling_avg (add_fill0 (monthly_sum cols (rows (date_fixed strptime tbl))) other)
     = rolling_avg (add_fill0 (monthly_sum cols (rows (date_fixed strptime rest))) other)
  /\ total cols (rows (date_fixed strptime tbl))
     = total cols (rows (date_fixed strptime rest)) + row_sum cols r.
Proof.
  intros Hd Hp tbl rest.
  assert (month (fix_row strptime r) = None) as Hm.
  { unfold fix_row, set_month, set_date. simpl. rewrite Hd. simpl.
    rewrite Hp. reflexivity. }
  assert (monthly_sum cols (rows (date_fixed strptime tbl))
          = monthly_sum cols (rows (date_fixed strptime rest))) as Hs.
  { unfold monthly_sum, date_fixed, tbl, rest. cbn [rows].
    rewrite !map_app. cbn [map].
    rewrite (groupby_month_skip _ _ _ Hm). reflexivity. }
  assert (date_fix strptime 0%nat [tbl] = (inr tt, [date_fixed strptime tbl])) as Hf.
  { rewrite date_fix_ok; reflexivity. }
  rewrite Hf, Hs. repeat split.
  - unfold fix_row, set_month, set_date. simpl. rewrite Hd. simpl.
    rewrite Hp. reflexivity.
  - exact Hm.
  - unfold date_fixed, tbl, rest. cbn [rows].
    rewrite !map_app. cbn [map]. rewrite !total_app, total_cons.
    rewrite row_sum_fix_row. lia.
Qed.

Lemma unparsed_date_tolerated_witness :
  strptime_dmy "2025/04/01" = None
  /\ monthly_sum demo_cols
       (rows (date_fixed strptime_dmy
                (mkDF demo_header
                      [demo_row (Some "Goa") "01-03-2025" 4 5;
                       demo_row (Some "Kerala") "2025/04/01" 6 7])))
     = [(662, 9)]
  /\ total demo_cols
       (rows (date_fixed strptime_dmy
                (mkDF demo_header
                      [demo_row (Some "Goa") "01-03-2025" 4 5;
                       demo_row (Some "Kerala") "2025/04/01" 6 7])))
     = 22.
Proof.
  pose proof (unparsed_date_tolerated strptime_dmy demo_cols
                [demo_row (Some "Goa") "01-03-2025" 4 5] []
                (demo_row (Some "Kerala") "2025/04/01" 6 7) "2025/04/01"
                [] ("state" :: demo_cols) eq_refl eq_refl) as H.
  cbv zeta in H. destruct H as [_ [_ [_ [_ [Hs [_ [_ Ht]]]]]]].
  split; [reflexivity |]. split.
  - etransitivity; [exact Hs | vm_compute; reflexivity].
  - etransitivity; [exact Ht | vm_compute; reflexivity].
Defined.

(** ** The filter stage and the store *)

Lemma filter_frame_ok (st : string) (l : loc) (h : Heap) :
  mem "state" (columns (nth l h empty_frame)) = true ->
  filter_frame st l h
  = (inr (length h), h ++ [select_state st (nth l h empty_frame)]).
Proof.
  intros H. cbv [filter_frame bind deref getitem ret raise alloc].
  rewrite H. reflexivity.
Qed.

Lemma nth_grown (l : loc) (h more : Heap) :
  (l < length h)%nat -> nth l (h ++ more) empty_frame = nth l h empty_frame.
Proof.
  intros H. apply app_nth1. exact H.
Qed.

Lemma nth_fresh (k : nat) (h more : Heap) :
  nth (length h + k) (h ++ more) empty_frame = nth k more empty_frame.
Proof.
  rewrite app_nth2 by lia. f_equal. lia.
Qed.

Lemma filter_stage_run (st : string) (e : Env) (h : Heap) :
  loaded e h = true ->
  exists e' more,
    filter_stage st e h = (inr e', h ++ more)
    /\ frames e' (h ++ more)
       = (filtered st (nth (enrol e) h empty_frame),
          filtered st (nth (demo e) h empty_frame),
          filtered st (nth (bio e) h empty_frame)).
Proof.
  unfold loaded. rewrite !andb_true_iff, !Nat.ltb_lt.
  intros [[[[[He Hd] Hb] Se] Sd] Sb].
  unfold filter_stage, filtered, frames.
  destruct (negb (st =? "All")%string).
  - exists (mkEnv (length h) (length h + 1)%nat (length h + 2)%nat).
    exists [select_state st (nth (enrol e) h empty_frame);
            select_state st (nth (demo e) h empty_frame);
            select_state st (nth (bio e) h empty_frame)].
    split.
    + unfold bind. rewrite filter_frame_ok by exact Se.
      rewrite filter_frame_ok by (rewrite nth_grown; assumption).
      rewrite filter_frame_ok
        by (rewrite nth_grown by (rewrite length_app; lia);
            rewrite nth_grown; assumption).
      rewrite !nth_grown by (rewrite ?length_app; simpl; lia).
      rewrite <- !app_assoc. simpl. rewrite !length_app. simpl.
      unfold ret. repeat f_equal; lia.
    + cbn [enrol demo bio].
      rewrite <- (Nat.add_0_r (length h)) at 1.
      rewrite !nth_fresh. reflexivity.
  - exists e, []. rewrite app_nil_r. split; reflexivity.
Qed.

Lemma loaded_grown (e : Env) (h more : Heap) :
  loaded e h = true -> loaded e (h ++ more) = true.
Proof.
  unfold loaded. rewrite !andb_true_iff, !Nat.ltb_lt.
  intros [[[[[He Hd] Hb] Se] Sd] Sb].
  rewrite !nth_grown by assumption. rewrite length_app.
  repeat split; try assumption; lia.
Qed.

Lemma filtered_rows (st : string) (df : DataFrame) (r : Row) :
  st <> "All" ->
  In r (rows (filtered st df)) <-> In r (rows df) /\ state r = Some st.
Proof.
  intros Hst. unfold filtered.
  destruct (String.eqb_spec st "All") as [E|_]; [contradiction |].
  simpl. rewrite filter_In. unfold state_is.
  destruct (state r) as [t|].
  - destruct (String.eqb_spec t st) as [->|N]; split; intros [H1 H2];
      split; congruence.
  - split; intros [H1 H2]; discriminate.
Qed.

(** C8: the filter stage binds each of the three names to the frame of
    exactly the records whose state equals the selected value (string
    equality, so case matters), or leaves the bindings as they are for the
    sentinel; every frame that was in the store before is still there
    unchanged, so filtering again from the original bindings, for any
    selection, gives the frames filtered from the original tables. *)
Theorem filter_stage_frame (st : string) (e : Env) (h : Heap) :
  loaded e h = true ->
  exists e' h',
    filter_stage st e h = (inr e', h')
    /\ frames e' h'
       = (filtered st (nth (enrol e) h empty_frame),
          filtered st (nth (demo e) h empty_frame),
          filtered st (nth (bio e) h empty_frame))
    /\ (forall df r, st <> "All" ->
          In r (rows (filtered st df)) <-> In r (rows df) /\ state r = Some st)
    /\ (forall df, filtered "All" df = df)
    /\ (st = "All" -> e' = e /\ h' = h)
    /\ (forall l, (l < length h)%nat ->
          nth l h' empty_frame = nth l h empty_frame)
    /\ (forall st2, exists e2 h2,
          filter_stage st2 e h' = (inr e2, h2)
          /\ frames e2 h2
             = (filtered st2 (nth (enrol e) h empty_frame),
                filtered st2 (nth (demo e) h empty_frame),
                filtered st2 (nth (bio e) h empty_frame))).
Proof.
  intros L. destruct (filter_stage_run st e h L) as [e' [more [Hrun Hfr]]].
  exists e', (h ++ more).
  split; [exact Hrun |].
  split; [exact Hfr |].
  split; [intros df r Hst; apply filtered_rows; exact Hst |].
  split; [reflexivity |].
  split.
  { intros ->. unfold filter_stage in Hrun. simpl in Hrun.
    unfold ret in Hrun. split; congruence. }
  split; [intros l Hl; apply nth_grown; exact Hl |].
  intros st2.
  destruct (filter_stage_run st2 e (h ++ more) (loaded_grown e h more L))
    as [e2 [more2 [Hrun2 Hfr2]]].
  exists e2, ((h ++ more) ++ more2). split; [exact Hrun2 |].
  rewrite Hfr2. unfold loaded in L.
  rewrite !andb_true_iff, !Nat.ltb_lt in L.
  destruct L as [[[[[He Hd] Hb] _] _] _].
  rewrite !nth_grown by assumption. reflexivity.
Qed.

Lemma filter_stage_frame_witness :
  exists e' h',
    filter_stage "Kerala" (mkEnv 0 1 2)%nat store_two = (inr e', h')
    /\ map state (rows (nth (enrol e') h' empty_frame))
       = [Some "Kerala"; Some "Kerala"]
    /\ nth 0 h' empty_frame = enrol_two.
Proof.
  destruct (filter_stage_frame "Kerala" (mkEnv 0 1 2)%nat store_two eq_refl)
    as [e' [h' [Hrun [Hfr [_ [_ [_ [Hold _]]]]]]]].
  exists e', h'. split; [exact Hrun |]. split.
  - unfold frames in Hfr. inversion Hfr as [[H1 H2 H3]]. rewrite H1. reflexivity.
  - apply (Hold 0%nat). simpl. lia.
Defined.

(** ** Missing columns *)

Lemma load_data_ok (fs : string -> option DataFrame) (E D B : DataFrame)
  (h : Heap) :
  fs "api_data_aadhar_enrolment.csv" = Some E ->
  fs "api_data_aadhar_demograp.csv" = Some D ->
  fs "api_data_aadhar_biometric.csv" = Some B ->
  load_data fs h
  = (inr (mkEnv (length h) (length h + 1)%nat (length h + 2)%nat),
     h ++ [E; D; B]).
Proof.
  intros HE HD HB. cbv [load_data bind read_csv].
  rewrite HE, HD, HB. cbv [alloc ret].
  rewrite <- !app_assoc, !length_app. simpl.
  repeat f_equal; lia.
Qed.

(** C6 (as stated): [load_data] on a demographic source without the [date]
    column raises nothing and returns the three tables as read; and with a
    biometric source that lacks a metric column the script gets through the
    date loop and the filter stage, which returns the three filtered frames,
    before the totals raise the KeyError. *)
Lemma load_data_does_not_validate :
  load_data (files enrol_two demo_no_date bio_two) []
  = (inr (mkEnv 0 1 2)%nat, [enrol_two; demo_no_date; bio_two])
  /\ fst ((e <- load_data (files enrol_two demo_two bio_no_metric) ;;
           date_fix_all strptime_dmy e ;;;
           opts <- options e ;;
           filter_stage (pick_kerala opts) e) [])
     = inr (mkEnv 3 4 5)%nat
  /\ fst (app strptime_dmy (files enrol_two demo_two bio_no_metric)
              render_ok pick_kerala [])
     = inl (KeyError "bio_age_17_").
Proof.
  repeat split; vm_compute; reflexivity.
Qed.

Lemma run_bind {A B : Type} (c : M A) (k : A -> M B) (h : Heap) :
  bind c k h
  = match c h with
    | (inl e, h') => (inl e, h')
    | (inr a, h') => k a h'
    end.
Proof.
  reflexivity.
Qed.

Lemma date_loop_keyerror (strptime : string -> option (Z * Z * Z))
  (E D B : DataFrame) :
  mem "date" (columns E) && mem "date" (columns D) && mem "date" (columns B)
  = false ->
  exists h',
    date_fix_all strptime (mkEnv 0 1 2)%nat [E; D; B]
    = (inl (KeyError "date"), h').
Proof.
  intros Hmiss. unfold date_fix_all, enrol, demo, bio.
  destruct (mem "date" (columns E)) eqn:ME.
  - rewrite run_bind, date_fix_ok by exact ME. simpl.
    destruct (mem "date" (columns D)) eqn:MD.
    + rewrite run_bind, date_fix_ok by exact MD. simpl.
      destruct (mem "date" (columns B)) eqn:MB; [discriminate Hmiss |].
      rewrite date_fix_keyerror by exact MB. eexists. reflexivity.
    + rewrite run_bind, date_fix_keyerror by exact MD. eexists. reflexivity.
  - rewrite run_bind, date_fix_keyerror by exact ME. eexists. reflexivity.
Qed.

(** C6 (amended): [load_data] does not look at the columns: with the three
    files present it returns the three tables as read.  When one of them
    lacks the [date] column the run of the script ends in the date loop with
    KeyError 'date': no filter, total or series is computed. *)
Theorem missing_date_keyerror (strptime : string -> option (Z * Z * Z))
  (fs : string -> option DataFrame) (render : view -> option exn)
  (pick : list string -> string) (E D B : DataFrame) :
  fs "api_data_aadhar_enrolment.csv" = Some E ->
  fs "api_data_aadhar_demograp.csv" = Some D ->
  fs "api_data_aadhar_biometric.csv" = Some B ->
  mem "date" (columns E) && mem "date" (columns D) && mem "date" (columns B)
  = false ->
  load_data fs [] = (inr (mkEnv 0 1 2)%nat, [E; D; B])
  /\ fst ((e <- load_data fs ;; date_fix_all strptime e) [])
     = inl (KeyError "date")
  /\ fst (app strptime fs render pick []) = inl (KeyError "date").
Proof.
  intros HE HD HB Hmiss.
  pose proof (load_data_ok fs E D B [] HE HD HB) as Hl. simpl in Hl.
  destruct (date_loop_keyerror strptime E D B Hmiss) as [h' Hloop].
  split; [exact Hl |]. split.
  - rewrite run_bind, Hl, Hloop. reflexivity.
  - unfold app. rewrite run_bind, Hl, run_bind, Hloop. reflexivity.
Qed.

Lemma missing_date_keyerror_witness :
  fst (app strptime_dmy (files enrol_two demo_no_date bio_two) render_ok pick_first [])
  = inl (KeyError "date").
Proof.
  apply (missing_date_keyerror strptime_dmy
           (files enrol_two demo_no_date bio_two) render_ok pick_first
           enrol_two demo_no_date bio_two); reflexivity.
Defined.

(** ** Monthly sums *)

Lemma insert_key_In (k k' : Z) (l : list Z) :
  In k' (insert_key k l) <-> k' = k \/ In k' l.
Proof.
  induction l as [|x l IH]; simpl.
  - intuition.
  - destruct (Z.ltb_spec k x); [simpl; intuition |].
    destruct (Z.eqb_spec k x) as [->|N]; simpl; [intuition |].
    rewrite IH. intuition.
Qed.

Lemma insert_key_sorted (k : Z) (l : list Z) :
  StronglySorted Z.lt l -> StronglySorted Z.lt (insert_key k l).
Proof.
  induction l as [|x l IH]; intros S; simpl.
  - repeat constructor.
  - apply StronglySorted_inv in S. destruct S as [S F].
    destruct (Z.ltb_spec k x).
    + constructor; [constructor; assumption |].
      constructor; [assumption |].
      rewrite Forall_forall in *. intros y Hy. specialize (F y Hy). lia.
    + destruct (Z.eqb_spec k x) as [->|N].
      * constructor; assumption.
      * constructor; [apply IH; exact S |].
        rewrite Forall_forall in *. intros y Hy.
        apply insert_key_In in Hy. destruct Hy as [->|Hy]; [lia | auto].
Qed.

Lemma sorted_NoDup (l : list Z) : StronglySorted Z.lt l -> NoDup l.
Proof.
  induction 1 as [|x l S IH F]; constructor; [| exact IH].
  intros Hx. rewrite Forall_forall in F. specialize (F x Hx). lia.
Qed.

Lemma insert_group_keys (k : Z) (r : Row) (g : list (Z * list Row)) :
  map fst (insert_group k r g) = insert_key k (map fst g).
Proof.
  induction g as [|[k' rs] g IH]; simpl; [reflexivity |].
  destruct (k <? k'); [reflexivity |].
  destruct (k =? k'); simpl; [reflexivity | rewrite IH; reflexivity].
Qed.

Lemma groupby_month_snoc (rs : list Row) (r : Row) :
  groupby_month (rs ++ [r]) = add_row (groupby_month rs) r.
Proof.
  unfold groupby_month. rewrite fold_left_app. reflexivity.
Qed.

(** Inserting a row of month [k] into groups that are given by a function
    of their key. *)
Lemma insert_group_map (f : Z -> list Row) (k : Z) (r : Row) (ks : list Z) :
  StronglySorted Z.lt ks ->
  (~ In k ks -> f k = []) ->
  insert_group k r (map (fun k' => (k', f k')) ks)
  = map (fun k' => (k', if k' =? k then f k' ++ [r] else f k'))
        (insert_key k ks).
Proof.
  induction ks as [|x ks IH]; intros S E; simpl.
  - rewrite Z.eqb_refl, E by tauto. reflexivity.
  - apply StronglySorted_inv in S. destruct S as [S F].
    rewrite Forall_forall in F.
    destruct (Z.ltb_spec k x) as [Hlt|Hge].
    + simpl. rewrite Z.eqb_refl, E.
      * f_equal. destruct (Z.eqb_spec x k) as [->|_]; [lia |]. f_equal.
        apply map_ext_in. intros y Hy. specialize (F y Hy).
        destruct (Z.eqb_spec y k) as [->|_]; [lia | reflexivity].
      * intros [->|Hk]; [lia | specialize (F k Hk); lia].
    + destruct (Z.eqb_spec k x) as [->|N]; simpl.
      * rewrite Z.eqb_refl. f_equal.
        apply map_ext_in. intros y Hy. specialize (F y Hy).
        destruct (Z.eqb_spec y x) as [->|_]; [lia | reflexivity].
      * destruct (Z.eqb_spec x k) as [->|_]; [contradiction |].
        f_equal. apply IH; [exact S |].
        intros Hk. apply E. intros [->|Hk']; [contradiction | auto].
Qed.

Lemma filter_snoc {A : Type} (f : A -> bool) (l : list A) (a : A) :
  filter f (l ++ [a]) = filter f l ++ (if f a then [a] else []).
Proof.
  rewrite filter_app. reflexivity.
Qed.

Lemma filter_none {A : Type} (f : A -> bool) (l : list A) :
  (forall a, In a l -> f a = false) -> filter f l = [].
Proof.
  induction l as [|a l IH]; simpl; intros H; [reflexivity |].
  rewrite (H a) by (left; reflexivity).
  apply IH. intros b Hb. apply H. right. exact Hb.
Qed.

(** The groups are the rows of each month present, in ascending month
    order, each in table order. *)
Lemma groupby_month_spec (rs : list Row) :
  StronglySorted Z.lt (map fst (groupby_month rs))
  /\ (forall k, In k (map fst (groupby_month rs))
                <-> exists r, In r rs /\ month r = Some k)
  /\ groupby_month rs
     = map (fun k => (k, filter (has_month k) rs)) (map fst (groupby_month rs)).
Proof.
  induction rs as [|r rs [S [K G]]] using rev_ind.
  - repeat split; try constructor.
    + intros [].
    + intros [r [[] _]].
  - rewrite groupby_month_snoc. unfold add_row.
    destruct (month r) as [k|] eqn:Em.
    + rewrite insert_group_keys. split; [apply insert_key_sorted; exact S |].
      split.
      * intros k'. rewrite insert_key_In, K. split.
        -- intros [->|[r' [H1 H2]]].
           ++ exists r. split; [apply in_or_app; right; left; reflexivity | exact Em].
           ++ exists r'. split; [apply in_or_app; left; exact H1 | exact H2].
        -- intros [r' [H1 H2]]. apply in_app_or in H1.
           destruct H1 as [H1|[<-|[]]].
           ++ right. exists r'. auto.
           ++ left. congruence.
      * rewrite G at 1.
        rewrite (insert_group_map (fun k' => filter (has_month k') rs)).
        -- apply map_ext. intros k'. f_equal. rewrite filter_snoc.
           replace (has_month k' r) with (k' =? k)
             by (unfold has_month; rewrite Em; apply Z.eqb_sym).
           destruct (k' =? k); [reflexivity | rewrite app_nil_r; reflexivity].
        -- exact S.
        -- intros Hk. apply filter_none. intros r' Hr'.
           unfold has_month. destruct (month r') as [m|] eqn:Er'; [| reflexivity].
           destruct (Z.eqb_spec m k) as [->|_]; [| reflexivity].
           exfalso. apply Hk. apply K. exists r'. auto.
    + split; [exact S |]. split.
      * intros k. rewrite K. split; intros [r' [H1 H2]]; exists r'.
        -- split; [apply in_or_app; left; exact H1 | exact H2].
        -- apply in_app_or in H1. destruct H1 as [H1|[<-|[]]]; [auto | congruence].
      * rewrite G at 1. apply map_ext. intros k. f_equal.
        rewrite filter_snoc.
        replace (has_month k r) with false by (unfold has_month; rewrite Em; reflexivity).
        rewrite app_nil_r. reflexivity.
Qed.

Lemma monthly_sum_keys (cols : list string) (rs : list Row) :
  keys (monthly_sum cols rs) = map fst (groupby_month rs).
Proof.
  unfold keys, monthly_sum. rewrite map_map. reflexivity.
Qed.

Lemma monthly_sum_map (cols : list string) (rs : list Row) :
  monthly_sum cols rs
  = map (fun k => (k, total cols (filter (has_month k) rs)))
        (keys (monthly_sum cols rs)).
Proof.
  rewrite monthly_sum_keys. unfold monthly_sum.
  destruct (groupby_month_spec rs) as [_ [_ G]].
  rewrite G at 1. rewrite map_map. reflexivity.
Qed.

Lemma groupby_month_dropna (rs : list Row) :
  groupby_month rs = groupby_month (filter (fun r => negb (null_month r)) rs).
Proof.
  unfold groupby_month. generalize (@nil (Z * list Row)) as g.
  induction rs as [|r rs IH]; intros g; simpl; [reflexivity |].
  unfold null_month at 1, add_row at 2.
  destruct (month r) as [k|] eqn:Em; simpl.
  - unfold add_row at 3. rewrite Em. apply IH.
  - apply IH.
Qed.

(** C5: the keys of a monthly sum are strictly ascending, hence without a
    duplicate; they are the non-null months of the table, each one once; the
    value at a month is the sum, over the named columns, of the records of
    that month, that is the sum over those records and over the named
    columns of the numeric cells; the records with a null month play no
    part; and on four records (April, March, unparsed, March) with the two
    demographic columns the result is March 12, April 13. *)
Theorem monthly_sum_sorted_grouped (cols : list string) (rs : list Row) :
  StronglySorted Z.lt (keys (monthly_sum cols rs))
  /\ NoDup (keys (monthly_sum cols rs))
  /\ (forall k, In k (keys (monthly_sum cols rs))
                <-> exists r, In r rs /\ month r = Some k)
  /\ (forall k v, In (k, v) (monthly_sum cols rs)
                  <-> In k (keys (monthly_sum cols rs))
                      /\ v = total cols (filter (has_month k) rs))
  /\ monthly_sum cols rs
     = monthly_sum cols (filter (fun r => negb (null_month r)) rs)
  /\ (forall k v, In (k, v) (monthly_sum cols rs) ->
        v = fold_right Z.add 0
              (map (fun r =>
                      fold_right Z.add 0
                        (map (fun c =>
                                match assoc c (counts r) with
                                | Some x => x
                                | None => 0
                                end) cols))
                   (filter (fun r =>
                              match month r with
                              | Some m => m =? k
                              | None => false
                              end) rs)))
  /\ monthly_sum ["demo_age_5_17"; "demo_age_17_"] demo_by_month
     = [(662, 12); (663, 13)].
Proof.
  destruct (groupby_month_spec rs) as [S [K G]].
  rewrite monthly_sum_keys.
  split; [exact S |].
  split; [apply sorted_NoDup; exact S |].
  split; [exact K |].
  assert (forall k v, In (k, v) (monthly_sum cols rs)
                      <-> In k (map fst (groupby_month rs))
                          /\ v = total cols (filter (has_month k) rs)) as V.
  { intros k v. rewrite (monthly_sum_map cols rs) at 1.
    rewrite monthly_sum_keys, in_map_iff. split.
    - intros [k' [E Hk']]. inversion E. subst. auto.
    - intros [Hk ->]. exists k. auto. }
  split; [exact V |].
  split.
  { unfold monthly_sum. rewrite <- groupby_month_dropna. reflexivity. }
  split.
  - intros k v Hkv. apply V in Hkv. destruct Hkv as [_ ->].
    apply total_by_rows.
  - vm_compute. reflexivity.
Qed.

(** ** Adding two series *)

Lemma sorted_keys_In (l : list Z) (k : Z) :
  In k (fold_right insert_key [] l) <-> In k l.
Proof.
  induction l as [|x l IH]; simpl; [tauto |].
  rewrite insert_key_In, IH. intuition.
Qed.

Lemma sorted_keys_sorted (l : list Z) :
  StronglySorted Z.lt (fold_right insert_key [] l).
Proof.
  induction l as [|x l IH]; simpl; [constructor |].
  apply insert_key_sorted. exact IH.
Qed.

(** A strictly ascending list is determined by its elements. *)
Lemma sorted_ext (l1 l2 : list Z) :
  StronglySorted Z.lt l1 -> StronglySorted Z.lt l2 ->
  (forall k, In k l1 <-> In k l2) -> l1 = l2.
Proof.
  intros S1. revert l2. induction S1 as [|x l1 S1 IH F1]; intros l2 S2 E.
  - destruct l2 as [|y l2]; [reflexivity |].
    exfalso. apply (E y). left. reflexivity.
  - destruct S2 as [|y l2 S2 F2].
    + exfalso. apply (E x). left. reflexivity.
    + rewrite Forall_forall in F1, F2.
      assert (x = y) as ->.
      { destruct (proj1 (E x) (or_introl eq_refl)) as [Hy|Hx]; [auto |].
        destruct (proj2 (E y) (or_introl eq_refl)) as [Hx'|Hy']; [auto |].
        specialize (F1 y Hy'). specialize (F2 x Hx). lia. }
      f_equal. apply IH; [exact S2 |].
      intros k. split; intros Hk.
      * destruct (proj1 (E k) (or_intror Hk)) as [->|H]; [| exact H].
        specialize (F1 k Hk). lia.
      * destruct (proj2 (E k) (or_intror Hk)) as [->|H]; [| exact H].
        specialize (F2 k Hk). lia.
Qed.

Lemma union_index_In (a b : list Z) (k : Z) :
  In k (union_index a b) <-> In k a \/ In k b.
Proof.
  unfold union_index. destruct (list_eq_dec Z.eq_dec a b) as [->|_].
  - tauto.
  - rewrite sorted_keys_In. apply in_app_iff.
Qed.

Lemma union_index_comm (a b : list Z) : union_index a b = union_index b a.
Proof.
  unfold union_index.
  destruct (list_eq_dec Z.eq_dec a b) as [E|N];
    destruct (list_eq_dec Z.eq_dec b a) as [E'|N']; try congruence.
  apply sorted_ext; try apply sorted_keys_sorted.
  intros k. rewrite !sorted_keys_In, !in_app_iff. tauto.
Qed.

Lemma union_index_sorted (a b : list Z) :
  StronglySorted Z.lt a -> StronglySorted Z.lt (union_index a b).
Proof.
  intros S. unfold union_index.
  destruct (list_eq_dec Z.eq_dec a b); [exact S | apply sorted_keys_sorted].
Qed.

Lemma get_None (k : Z) (s : Series) : get k s = None <-> ~ In k (keys s).
Proof.
  induction s as [|[k' v] s IH]; simpl; [tauto |].
  destruct (Z.eqb_spec k k') as [->|N].
  - split; [discriminate | intros H; exfalso; apply H; left; reflexivity].
  - rewrite IH. split; intros H; [intros [E|K]; [congruence | auto] | auto].
Qed.

Lemma get_Some_In (k v : Z) (s : Series) : get k s = Some v -> In (k, v) s.
Proof.
  induction s as [|[k' v'] s IH]; simpl; [discriminate |].
  destruct (Z.eqb_spec k k') as [->|N].
  - intros [= ->]. left. reflexivity.
  - intros H. right. apply IH. exact H.
Qed.

Lemma In_get_Some (k v : Z) (s : Series) :
  NoDup (keys s) -> In (k, v) s -> get k s = Some v.
Proof.
  induction s as [|[k' v'] s IH]; simpl; intros ND H; [contradiction |].
  apply NoDup_cons_iff in ND. destruct ND as [Nk ND].
  destruct H as [[= -> ->]|H].
  - rewrite Z.eqb_refl. reflexivity.
  - destruct (Z.eqb_spec k k') as [->|N]; [| apply IH; assumption].
    exfalso. apply Nk. apply (in_map fst) in H. exact H.
Qed.

Lemma get_map (f : Z -> Z) (ks : list Z) (k : Z) :
  get k (map (fun k' => (k', f k')) ks)
  = if in_dec Z.eq_dec k ks then Some (f k) else None.
Proof.
  induction ks as [|x ks IH]; simpl; [reflexivity |].
  destruct (Z.eqb_spec k x) as [->|N].
  - destruct (Z.eq_dec x x); [reflexivity | contradiction].
  - rewrite IH. destruct (Z.eq_dec x k); [congruence |].
    destruct (in_dec Z.eq_dec k ks); reflexivity.
Qed.

Lemma add_fill0_keys (a b : Series) :
  keys (add_fill0 a b) = union_index (keys a) (keys b).
Proof.
  unfold keys, add_fill0. rewrite map_map. simpl. apply map_id.
Qed.

(** The value of the sum at every month: a full outer join, a missing side
    counting as 0. *)
Lemma add_fill0_get (a b : Series) (k : Z) :
  get k (add_fill0 a b)
  = match get k a, get k b with
    | Some x, Some y => Some (x + y)
    | Some x, None => Some (x + 0)
    | None, Some y => Some (0 + y)
    | None, None => None
    end.
Proof.
  unfold add_fill0. rewrite get_map.
  destruct (in_dec Z.eq_dec k (union_index (keys a) (keys b))) as [H|H];
    rewrite union_index_In in H.
  - destruct (get k a) eqn:Ea, (get k b) eqn:Eb; try reflexivity.
    apply get_None in Ea, Eb. tauto.
  - destruct (get k a) eqn:Ea.
    + exfalso. apply H. left.
      destruct (in_dec Z.eq_dec k (keys a)) as [K|K]; [exact K |].
      apply get_None in K. congruence.
    + destruct (get k b) eqn:Eb; [| reflexivity].
      exfalso. apply H. right.
      destruct (in_dec Z.eq_dec k (keys b)) as [K|K]; [exact K |].
      apply get_None in K. congruence.
Qed.

Lemma add_fill0_comm (a b : Series) : add_fill0 a b = add_fill0 b a.
Proof.
  unfold add_fill0. rewrite (union_index_comm (keys a) (keys b)).
  apply map_ext. intros k. f_equal. lia.
Qed.

Lemma union_index_NoDup (a b : list Z) : NoDup a -> NoDup (union_index a b).
Proof.
  intros ND. unfold union_index.
  destruct (list_eq_dec Z.eq_dec a b); [exact ND |].
  apply sorted_NoDup, sorted_keys_sorted.
Qed.

Lemma In_keys_get (k : Z) (s : Series) :
  In k (keys s) -> exists v, get k s = Some v.
Proof.
  intros H. destruct (get k s) as [v|] eqn:E; [exists v; reflexivity |].
  apply get_None in E. contradiction.
Qed.

Lemma In_add_fill0 (a b : Series) (k v : Z) :
  NoDup (keys a) ->
  In (k, v) (add_fill0 a b) <-> get k (add_fill0 a b) = Some v.
Proof.
  intros ND. split; [| apply get_Some_In].
  apply In_get_Some. rewrite add_fill0_keys.
  apply union_index_NoDup. exact ND.
Qed.

Lemma add_fill0_disjoint (a b : Series) :
  NoDup (keys a) -> NoDup (keys b) ->
  (forall k, In k (keys a) -> ~ In k (keys b)) ->
  Permutation (add_fill0 a b) (a ++ b).
Proof.
  intros Na Nb D. apply NoDup_Permutation.
  - apply NoDup_map_inv with (f := fst). fold (keys (add_fill0 a b)).
    rewrite add_fill0_keys. apply union_index_NoDup. exact Na.
  - apply NoDup_map_inv with (f := fst). rewrite map_app.
    apply NoDup_app; assumption.
  - intros [k v]. rewrite In_add_fill0 by exact Na.
    rewrite add_fill0_get, in_app_iff. split.
    + destruct (get k a) as [x|] eqn:Ea; destruct (get k b) as [y|] eqn:Eb.
      * exfalso. apply (D k).
        -- apply get_Some_In in Ea. apply (in_map fst) in Ea. exact Ea.
        -- apply get_Some_In in Eb. apply (in_map fst) in Eb. exact Eb.
      * intros [= <-]. left. apply get_Some_In. rewrite Ea. f_equal. lia.
      * intros [= <-]. right. apply get_Some_In. rewrite Eb. reflexivity.
      * discriminate.
    + intros [H|H].
      * rewrite (In_get_Some k v a Na H).
        destruct (get k b) as [y|] eqn:Eb; [| f_equal; lia].
        exfalso. apply (D k).
        -- apply (in_map fst) in H. exact H.
        -- apply get_Some_In in Eb. apply (in_map fst) in Eb. exact Eb.
      * rewrite (In_get_Some k v b Nb H).
        destruct (get k a) as [x|] eqn:Ea; [| reflexivity].
        exfalso. apply (D k).
        -- apply get_Some_In in Ea. apply (in_map fst) in Ea. exact Ea.
        -- apply (in_map fst) in H. exact H.
Qed.

(** C4: adding two monthly series is a full outer join on the month with the
    missing side counting as 0; it is commutative; for series with ascending
    months the result has ascending months; and for series on disjoint
    months the result holds exactly the entries of the two inputs, every
    month with the value of its single input. *)
Theorem add_fill0_outer_join (a b : Series) :
  (forall k,
     get k (add_fill0 a b)
     = match get k a, get k b with
       | Some x, Some y => Some (x + y)
       | Some x, None => Some (x + 0)
       | None, Some y => Some (0 + y)
       | None, None => None
       end)
  /\ (forall k, In k (keys (add_fill0 a b)) <-> In k (keys a) \/ In k (keys b))
  /\ add_fill0 a b = add_fill0 b a
  /\ (StronglySorted Z.lt (keys a) -> StronglySorted Z.lt (keys b) ->
      StronglySorted Z.lt (keys (add_fill0 a b))
      /\ ((forall k, In k (keys a) -> ~ In k (keys b)) ->
          Permutation (add_fill0 a b) (a ++ b)
          /\ (forall k v, In (k, v) (a ++ b) ->
                 get k (add_fill0 a b) = Some v))).
Proof.
  split; [apply add_fill0_get |].
  split; [intros k; rewrite add_fill0_keys; apply union_index_In |].
  split; [apply add_fill0_comm |].
  intros Sa Sb. split.
  - rewrite add_fill0_keys. apply union_index_sorted. exact Sa.
  - intros D.
    pose proof (add_fill0_disjoint a b (sorted_NoDup _ Sa) (sorted_NoDup _ Sb) D)
      as P.
    split; [exact P |].
    intros k v H. apply In_add_fill0; [apply sorted_NoDup; exact Sa |].
    apply (Permutation_in _ (Permutation_sym P)). exact H.
Qed.

Lemma add_fill0_outer_join_witness :
  add_fill0 series_march series_april = [(661, 2); (662, 9); (663, 13); (664, 4)]
  /\ Permutation (add_fill0 series_march series_april)
       (series_march ++ series_april).
Proof.
  split; [vm_compute; reflexivity |].
  destruct (add_fill0_outer_join series_march series_april) as [_ [_ [_ H]]].
  apply H.
  - repeat constructor; lia.
  - repeat constructor; lia.
  - simpl. intros k [<-|[<-|[]]]; intros [E|[E|[]]]; discriminate E.
Defined.

(** ** Rolling mean *)

Lemma rolling_mean_length (w : nat) (vs : list R) :
  length (rolling_mean w vs) = length vs.
Proof.
  unfold rolling_mean. rewrite length_map, length_seq. reflexivity.
Qed.

Lemma rolling_mean_nth (w : nat) (vs : list R) (i : nat) (d : float64) :
  (i < length vs)%nat ->
  nth i (rolling_mean w vs) d
  = if (length (window w vs i) <? w)%nat then NaN
    else Fin (rsum (window w vs i) / INR (length (window w vs i))).
Proof.
  intros Hi. unfold rolling_mean.
  set (f := fun i0 : nat =>
              if (length (window w vs i0) <? w)%nat then NaN
              else Fin (rsum (window w vs i0) / INR (length (window w vs i0)))).
  rewrite (nth_indep _ d (f 0%nat))
    by (rewrite length_map, length_seq; exact Hi).
  rewrite map_nth, seq_nth by exact Hi. reflexivity.
Qed.

Lemma window_short {A : Type} (w : nat) (l : list A) (i : nat) :
  (S i < w)%nat -> (length (window w l i) < w)%nat.
Proof.
  intros H. unfold window. rewrite length_skipn, length_firstn. lia.
Qed.

Lemma window_three {A : Type} (l : list A) (k : nat) (d : A) :
  (k + 2 < length l)%nat ->
  window 3 l (k + 2)
  = [nth k l d; nth (k + 1) l d; nth (k + 2) l d].
Proof.
  unfold window. replace (S (k + 2) - 3)%nat with k by lia.
  revert l. induction k as [|k IH]; intros l H.
  - destruct l as [|a [|b [|c l]]]; simpl in H; try lia. reflexivity.
  - destruct l as [|a l]; simpl in H; [lia |].
    simpl. apply IH. lia.
Qed.

Lemma rolling_avg_keys (s : Series) : map fst (rolling_avg s) = keys s.
Proof.
  unfold rolling_avg, keys, values.
  assert (forall (a : list Z) (b : list float64),
             length a = length b -> map fst (List.combine a b) = a) as H.
  { induction a as [|x a IH]; intros [|y b] E; simpl in *; try lia;
      [reflexivity | f_equal; apply IH; lia]. }
  apply H. rewrite rolling_mean_length, !length_map. reflexivity.
Qed.

(** C3: the rolling mean keeps the months of its input in their order; at
    position i (from 0) it is NaN when i + 1 < 3 and otherwise the mean of the
    values at i - 2, i - 1 and i; on 10, 20, 30, 40 it is NaN, NaN, 20, 30. *)
Theorem rolling_avg_three (s : Series) :
  map fst (rolling_avg s) = keys s
  /\ length (rolling_avg s) = length s
  /\ (forall i, (i < length s)%nat -> (i + 1 < 3)%nat ->
        nth i (map snd (rolling_avg s)) (Fin 0) = NaN)
  /\ (forall i, (i < length s)%nat -> (3 <= i + 1)%nat ->
        nth i (map snd (rolling_avg s)) NaN
        = Fin ((nth (i - 2) (values s) 0 + nth (i - 1) (values s) 0
                + nth i (values s) 0) / 3)%R)
  /\ map snd (rolling_avg series_four) = [NaN; NaN; Fin 20; Fin 30].
Proof.
  assert (forall t : Series,
             map snd (rolling_avg t) = rolling_mean 3 (values t)) as Hsnd.
  { intros t. unfold rolling_avg.
    assert (forall (a : list Z) (b : list float64),
               length a = length b -> map snd (List.combine a b) = b) as H.
    { induction a as [|x a IH]; intros [|y b] E; simpl in *; try lia;
        [reflexivity | f_equal; apply IH; lia]. }
    apply H. unfold keys, values.
    rewrite rolling_mean_length, !length_map. reflexivity. }
  assert (forall t : Series, length (values t) = length t) as Hlen
    by (intros t; unfold values; apply length_map).
  split; [apply rolling_avg_keys |].
  split.
  { rewrite <- (length_map snd), Hsnd, rolling_mean_length. apply Hlen. }
  split.
  { intros i Hi Hs. rewrite Hsnd, rolling_mean_nth by (rewrite Hlen; exact Hi).
    pose proof (window_short 3 (values s) i ltac:(lia)) as Hw.
    apply Nat.ltb_lt in Hw. rewrite Hw. reflexivity. }
  split.
  { intros i Hi Hs. rewrite Hsnd, rolling_mean_nth by (rewrite Hlen; exact Hi).
    pose proof (window_three (values s) (i - 2) 0%R) as W.
    replace (i - 2 + 1)%nat with (i - 1)%nat in W by lia.
    replace (i - 2 + 2)%nat with i in W by lia.
    rewrite W by (rewrite Hlen; exact Hi).
    simpl. f_equal. field. }
  rewrite Hsnd. unfold rolling_mean, series_four, values. simpl.
  repeat f_equal; field.
Qed.

(** ** Anomaly detection *)

Lemma std_NaN (vs : list R) : (length vs < 2)%nat -> std vs = NaN.
Proof.
  destruct vs as [|a [|b vs]]; simpl; intros H; [reflexivity | reflexivity | lia].
Qed.

Lemma std_Fin (vs : list R) :
  (2 <= length vs)%nat ->
  std vs
  = Fin (sqrt (sqdev (rsum vs / INR (length vs)) vs / (INR (length vs) - 1))).
Proof.
  destruct vs as [|a [|b vs]]; simpl length; intros H; [lia | lia | reflexivity].
Qed.

Lemma mean_Fin (vs : list R) :
  (1 <= length vs)%nat -> mean vs = Fin (rsum vs / INR (length vs)).
Proof.
  destruct vs as [|a vs]; simpl length; intros H; [lia | reflexivity].
Qed.

Lemma select_mask_values (h : R -> bool) (s : Series) :
  select_mask s (map h (values s))
  = filter (fun kv => h (IZR (snd kv))) s.
Proof.
  induction s as [|kv s IH]; simpl; [reflexivity |].
  rewrite IH. reflexivity.
Qed.

Lemma select_mask_none (h : R -> bool) (s : Series) :
  (forall x, In x (values s) -> h x = false) ->
  select_mask s (map h (values s)) = [].
Proof.
  intros H. rewrite select_mask_values. apply filter_none.
  intros kv Hkv. apply H. unfold values.
  apply (in_map (fun kv => IZR (snd kv))) in Hkv. exact Hkv.
Qed.

Lemma anomalies_mask (s : Series) :
  anomalies s
  = select_mask s
      (map (fun x => fgt (fabs (fdiv (fsub (Fin x) (mean (values s)))
                                      (std (values s)))) 2)
           (values s)).
Proof.
  unfold anomalies, z_scores. rewrite map_map. reflexivity.
Qed.

Lemma rsum_cons (x : R) (l : list R) : rsum (x :: l) = (x + rsum l)%R.
Proof.
  reflexivity.
Qed.

Lemma sqdev_cons (m x : R) (vs : list R) :
  sqdev m (x :: vs) = ((x - m) * (x - m) + sqdev m vs)%R.
Proof.
  reflexivity.
Qed.

Lemma sqdev_nonneg (m : R) (vs : list R) : (0 <= sqdev m vs)%R.
Proof.
  induction vs as [|x vs IH]; [unfold sqdev; simpl; lra |].
  rewrite sqdev_cons. pose proof (Rle_0_sqr (x - m)) as P.
  unfold Rsqr in P. lra.
Qed.

Lemma sqdev_zero (m : R) (vs : list R) (x : R) :
  sqdev m vs = 0%R -> In x vs -> (x - m = 0)%R.
Proof.
  induction vs as [|y vs IH]; intros H Hx; [contradiction |].
  rewrite sqdev_cons in H.
  pose proof (sqdev_nonneg m vs) as P.
  pose proof (Rle_0_sqr (y - m)) as Q. unfold Rsqr in Q.
  destruct Hx as [->|Hx].
  - assert ((x - m) * (x - m) = 0)%R as Z0 by lra.
    apply Rmult_integral in Z0. tauto.
  - apply IH; [lra | exact Hx].
Qed.

Lemma INR_length_pos (vs : list R) :
  (2 <= length vs)%nat -> (0 < INR (length vs) - 1)%R.
Proof.
  intros H. apply le_INR in H. simpl in H. lra.
Qed.

(** A zero standard deviation means every value is the mean. *)
Lemma sigma_zero (vs : list R) (x : R) :
  (2 <= length vs)%nat ->
  sqrt (sqdev (rsum vs / INR (length vs)) vs / (INR (length vs) - 1)) = 0%R ->
  In x vs -> (x - rsum vs / INR (length vs) = 0)%R.
Proof.
  intros Hn Hs Hx. pose proof (INR_length_pos vs Hn) as Hp.
  pose proof (sqdev_nonneg (rsum vs / INR (length vs)) vs) as Hq.
  apply sqrt_eq_0 in Hs.
  - apply (sqdev_zero _ vs x); [| exact Hx].
    apply Rmult_eq_compat_r with (r := (INR (length vs) - 1)%R) in Hs.
    unfold Rdiv in Hs. rewrite Rmult_assoc, Rinv_l in Hs by lra. lra.
  - apply Rmult_le_pos; [exact Hq |]. apply Rlt_le, Rinv_0_lt_compat. exact Hp.
Qed.

Lemma values_length (s : Series) : length (values s) = length s.
Proof.
  unfold values. apply length_map.
Qed.

(** The flag of one value when the standard deviation is a positive
    number. *)
Lemma flag_regular (x mu sigma : R) :
  sigma <> 0%R -> (0 <= sigma)%R ->
  fgt (fabs (fdiv (fsub (Fin x) (Fin mu)) (Fin sigma))) 2
  = if Rlt_dec 2 (Rabs (x - mu) / sigma) then true else false.
Proof.
  intros Hn Hp. simpl. destruct (Req_dec_T sigma 0) as [E|_]; [contradiction |].
  simpl.
  replace (Rabs ((x - mu) / sigma)) with (Rabs (x - mu) / sigma)%R;
    [reflexivity |].
  unfold Rdiv. rewrite Rabs_mult, Rabs_inv.
  rewrite (Rabs_pos_eq sigma) by exact Hp. reflexivity.
Qed.

(** The flag of a value equal to the mean when the standard deviation is
    zero: the quotient is NaN. *)
Lemma flag_degenerate (x mu : R) :
  (x - mu = 0)%R ->
  fgt (fabs (fdiv (fsub (Fin x) (Fin mu)) (Fin 0))) 2 = false.
Proof.
  intros H. simpl. destruct (Req_dec_T 0 0) as [_|N]; [| contradiction].
  destruct (Req_dec_T (x - mu) 0) as [_|N]; [reflexivity | contradiction].
Qed.

(** The anomalies computed by the script are those of the contract. *)
Lemma anomalies_detect (s : Series) : anomalies s = detectAnomalies s.
Proof.
  rewrite anomalies_mask. unfold detectAnomalies.
  destruct (length (values s) <? 2)%nat eqn:Hn.
  - apply Nat.ltb_lt in Hn. rewrite (std_NaN _ Hn).
    apply select_mask_none. intros x _.
    destruct (mean (values s)); reflexivity.
  - apply Nat.ltb_ge in Hn.
    rewrite (std_Fin _ Hn), (mean_Fin (values s)) by lia.
    set (mu := (rsum (values s) / INR (length (values s)))%R).
    set (sigma := sqrt (sqdev mu (values s) / (INR (length (values s)) - 1))).
    destruct (Req_dec_T sigma 0) as [E|N].
    + rewrite E. apply select_mask_none. intros x Hx.
      apply flag_degenerate. apply (sigma_zero (values s) x Hn E Hx).
    + rewrite select_mask_values. apply filter_ext. intros kv.
      apply flag_regular; [exact N | apply sqrt_pos].
Qed.

(** C2: the anomalies are the months the contract flags: none on a series
    of fewer than two points or with a zero standard deviation (the
    quotient is NaN there, and NaN > 2 is false), otherwise the months whose
    absolute deviation from the mean over the sample standard deviation
    (ddof = 1) is greater than 2; a constant series has no anomaly. *)
Theorem anomalies_contract (s : Series) :
  anomalies s = detectAnomalies s
  /\ ((forall kv, In kv s -> snd kv = snd (hd (0, 0) s)) -> anomalies s = []).
Proof.
  pose proof (anomalies_detect s) as Heq.
  split; [exact Heq |].
  intros Hc. rewrite Heq. unfold detectAnomalies.
  destruct (length (values s) <? 2)%nat eqn:Hn; [reflexivity |].
  apply Nat.ltb_ge in Hn.
  set (mu := (rsum (values s) / INR (length (values s)))%R).
  destruct (Req_dec_T (sqrt (sqdev mu (values s) / (INR (length (values s)) - 1))) 0)
    as [_|N]; [reflexivity |].
  exfalso. apply N.
  assert (forall x, In x (values s) -> x = IZR (snd (hd (0, 0) s))) as Hall.
  { intros x Hx. unfold values in Hx. apply in_map_iff in Hx.
    destruct Hx as [kv [<- Hkv]]. rewrite (Hc kv Hkv). reflexivity. }
  set (c := IZR (snd (hd (0, 0) s))) in *.
  assert (forall l : list R, (forall x, In x l -> x = c) ->
            rsum l = (INR (length l) * c)%R) as Hsum.
  { induction l as [|x l IH]; intros Hl.
    - simpl. lra.
    - rewrite rsum_cons, IH by (intros y Hy; apply Hl; right; exact Hy).
      rewrite (Hl x) by (left; reflexivity).
      change (length (c :: l)) with (S (length l)). rewrite S_INR. lra. }
  assert (mu = c) as Hmu.
  { unfold mu. rewrite (Hsum _ Hall). field.
    apply not_0_INR. lia. }
  assert (forall l : list R, (forall x, In x l -> x = c) -> sqdev c l = 0%R)
    as Hdev.
  { induction l as [|x l IH]; intros Hl.
    - reflexivity.
    - rewrite sqdev_cons, IH by (intros y Hy; apply Hl; right; exact Hy).
      rewrite (Hl x) by (left; reflexivity). lra. }
  rewrite Hmu, (Hdev _ Hall). unfold Rdiv. rewrite Rmult_0_l. apply sqrt_0.
Qed.

Lemma anomalies_contract_witness : anomalies series_constant = [].
Proof.
  apply (anomalies_contract series_constant).
  simpl. intros kv H.
  repeat (destruct H as [<-|H]; [reflexivity |]). contradiction.
Defined.

(** ** The largest z-score of a short series *)

Lemma rsum_app (a b : list R) : rsum (a ++ b) = (rsum a + rsum b)%R.
Proof.
  induction a as [|x a IH]; simpl; [lra |].
  fold (rsum (a ++ b)). fold (rsum a). rewrite IH. lra.
Qed.

Lemma sqdev_app (m : R) (a b : list R) :
  sqdev m (a ++ b) = (sqdev m a + sqdev m b)%R.
Proof.
  unfold sqdev. rewrite map_app. apply rsum_app.
Qed.

Lemma rsum_deviations (m : R) (vs : list R) :
  rsum (map (fun x => x - m)%R vs) = (rsum vs - INR (length vs) * m)%R.
Proof.
  induction vs as [|x vs IH].
  - simpl. lra.
  - change (length (x :: vs)) with (S (length vs)). rewrite S_INR.
    cbn [map]. rewrite !rsum_cons, IH. lra.
Qed.

Lemma sum_of_squares (c : R) (l : list R) :
  (0 <= rsum (map (fun d => d * d) l) - 2 * c * rsum l
        + INR (length l) * (c * c))%R.
Proof.
  induction l as [|d l IH].
  - simpl. lra.
  - change (length (d :: l)) with (S (length l)). rewrite S_INR.
    cbn [map]. rewrite !rsum_cons.
    pose proof (Rle_0_sqr (d - c)) as P. unfold Rsqr in P. lra.
Qed.

Lemma square_of_sum_step (S Q m : R) :
  (0 < m)%R ->
  (forall c, 0 <= Q - 2 * c * S + m * (c * c))%R ->
  (S * S <= m * Q)%R.
Proof.
  intros Hm H. specialize (H (S / m)%R).
  assert (m * (S / m * (S / m)) = S / m * S)%R as E by (field; lra).
  rewrite E in H.
  assert (0 <= m * (Q - S / m * S))%R as P by (apply Rmult_le_pos; lra).
  assert (m * (Q - S / m * S) = m * Q - S * S)%R as F by (field; lra).
  lra.
Qed.

(** The square of a sum is at most the length times the sum of squares. *)
Lemma square_of_sum (l : list R) :
  (rsum l * rsum l <= INR (length l) * rsum (map (fun d => d * d) l))%R.
Proof.
  destruct l as [|d l]; [simpl; lra |].
  apply square_of_sum_step.
  - apply lt_0_INR. simpl. lia.
  - intros c. apply sum_of_squares.
Qed.

(** No deviation from the mean is large against the sum of all squared
    deviations: n d^2 <= (n - 1) * sqdev. *)
Lemma deviation_bound (vs : list R) (x : R) :
  In x vs ->
  (INR (length vs)
   * ((x - rsum vs / INR (length vs)) * (x - rsum vs / INR (length vs)))
   <= (INR (length vs) - 1) * sqdev (rsum vs / INR (length vs)) vs)%R.
Proof.
  intros Hx. set (n := INR (length vs)). set (mu := (rsum vs / n)%R).
  assert (n <> 0)%R as Hn.
  { apply not_0_INR. destruct vs; [contradiction | simpl; lia]. }
  pose proof (rsum_deviations mu vs) as Hz. fold n in Hz.
  assert (rsum vs - n * mu = 0)%R as Hz0 by (unfold mu; field; exact Hn).
  rewrite Hz0 in Hz.
  apply in_split in Hx. destruct Hx as [l1 [l2 E]].
  assert (n - 1 = INR (length (map (fun y => y - mu)%R l1
                               ++ map (fun y => y - mu)%R l2)))%R as Hlen.
  { unfold n. rewrite E, !length_app, !length_map. simpl length.
    rewrite !plus_INR, S_INR. lra. }
  pose proof (square_of_sum (map (fun y => y - mu)%R l1
                             ++ map (fun y => y - mu)%R l2)) as CS.
  rewrite <- Hlen in CS.
  rewrite E, map_app in Hz. cbn [map] in Hz.
  rewrite rsum_app, rsum_cons in Hz.
  rewrite rsum_app, map_app, rsum_app, !map_map in CS.
  fold (sqdev mu l1) in CS. fold (sqdev mu l2) in CS.
  replace (sqdev mu vs) with (sqdev mu (l1 ++ x :: l2))
    by (rewrite <- E; reflexivity).
  rewrite sqdev_app, sqdev_cons.
  set (d := (x - mu)%R) in *.
  set (s1 := rsum (map (fun y => (y - mu)%R) l1)) in *.
  set (s2 := rsum (map (fun y => (y - mu)%R) l2)) in *.
  assert (s1 + s2 = - d)%R as Hs by lra.
  rewrite Hs in CS.
  set (q1 := sqdev mu l1) in *. set (q2 := sqdev mu l2) in *.
  assert (- d * - d = d * d)%R as Hd by ring. rewrite Hd in CS.
  lra.
Qed.

(** The variance under the square root is the square of the standard
    deviation. *)
Lemma variance_facts (vs : list R) :
  (2 <= length vs)%nat ->
  let n := INR (length vs) in
  let mu := (rsum vs / n)%R in
  let V := (sqdev mu vs / (n - 1))%R in
  (0 <= V /\ sqrt V * sqrt V = V /\ sqdev mu vs = V * (n - 1))%R.
Proof.
  intros Hn n mu V. pose proof (INR_length_pos vs Hn) as Hp. fold n in Hp.
  assert (0 <= V)%R as HV.
  { unfold V. apply Rmult_le_pos; [apply sqdev_nonneg |].
    apply Rlt_le, Rinv_0_lt_compat. exact Hp. }
  split; [exact HV |]. split; [apply sqrt_sqrt; exact HV |].
  unfold V. field. lra.
Qed.

(** With n points, n z^2 <= (n - 1)^2 for every z-score z. *)
Lemma z_score_bound (vs : list R) (x : R) :
  (2 <= length vs)%nat -> In x vs ->
  let n := INR (length vs) in
  let mu := (rsum vs / n)%R in
  let sigma := sqrt (sqdev mu vs / (n - 1)) in
  sigma <> 0%R ->
  (n * ((x - mu) / sigma * ((x - mu) / sigma)) <= (n - 1) * (n - 1))%R.
Proof.
  intros Hn Hx n mu sigma Hs.
  destruct (variance_facts vs Hn) as [HV [Hsq Hdev]].
  fold n in HV, Hsq, Hdev. fold mu in HV, Hsq, Hdev. fold sigma in Hsq.
  pose proof (deviation_bound vs x Hx) as B. fold n in B. fold mu in B.
  rewrite Hdev in B. rewrite <- Hsq in B.
  set (d := (x - mu)%R) in *.
  assert (0 < sigma * sigma)%R as Hpos.
  { pose proof (Rle_0_sqr sigma) as P. unfold Rsqr in P.
    destruct P as [P|P]; [exact P |].
    symmetry in P. apply Rmult_integral in P. tauto. }
  replace (n * (d / sigma * (d / sigma)))%R
    with (n * (d * d) * / (sigma * sigma))%R by (field; exact Hs).
  apply Rmult_le_reg_r with (r := (sigma * sigma)%R); [exact Hpos |].
  rewrite Rmult_assoc, Rinv_l by lra. lra.
Qed.

(** C9: a series of fewer than six months has no anomaly, whatever its
    values: with the sample standard deviation every z-score z of n points
    satisfies n z^2 <= (n - 1)^2, so |z| <= 2 up to n = 5. *)
Theorem short_series_no_anomaly (s : Series) :
  (length s < 6)%nat -> anomalies s = [].
Proof.
  intros Hlt. rewrite anomalies_detect. unfold detectAnomalies.
  destruct (length (values s) <? 2)%nat eqn:Hn; [reflexivity |].
  apply Nat.ltb_ge in Hn.
  set (n := INR (length (values s))).
  set (mu := (rsum (values s) / n)%R).
  set (sigma := sqrt (sqdev mu (values s) / (n - 1))).
  destruct (Req_dec_T sigma 0) as [_|Hs]; [reflexivity |].
  apply filter_none. intros kv Hkv.
  destruct (Rlt_dec 2 (Rabs (IZR (snd kv) - mu) / sigma)) as [Hbig|_];
    [| reflexivity].
  exfalso.
  assert (In (IZR (snd kv)) (values s)) as Hx
    by (unfold values; apply (in_map (fun p => IZR (snd p))); exact Hkv).
  pose proof (z_score_bound (values s) (IZR (snd kv)) Hn Hx Hs) as B.
  fold n in B. fold mu in B. fold sigma in B.
  set (d := (IZR (snd kv) - mu)%R) in *.
  assert (0 < sigma)%R as Hpos.
  { pose proof (sqrt_pos (sqdev mu (values s) / (n - 1))) as P.
    fold sigma in P. lra. }
  set (z := (d / sigma)%R) in *.
  assert (Rabs d / sigma = Rabs z)%R as Hz.
  { unfold z, Rdiv. rewrite Rabs_mult, Rabs_inv, (Rabs_pos_eq sigma) by lra.
    reflexivity. }
  rewrite Hz in Hbig.
  assert (4 < z * z)%R as Hzz.
  { replace (z * z)%R with (Rabs z * Rabs z)%R
      by (rewrite <- Rabs_mult; apply Rabs_pos_eq;
          pose proof (Rle_0_sqr z) as P; unfold Rsqr in P; exact P).
    assert (0 <= (Rabs z - 2) * (Rabs z - 2) + 4 * (Rabs z - 2))%R as Q.
    { pose proof (Rle_0_sqr (Rabs z - 2)) as P. unfold Rsqr in P. lra. }
    assert (0 < (Rabs z - 2) * (Rabs z + 2))%R as Q2
      by (apply Rmult_lt_0_compat; lra).
    lra. }
  assert (n = 2 \/ n = 3 \/ n = 4 \/ n = 5)%R as Hcases.
  { unfold n. rewrite values_length in *.
    destruct (length s) as [|[|[|[|[|[|k]]]]]]; try lia; simpl; lra. }
  destruct Hcases as [E|[E|[E|E]]]; rewrite E in B; lra.
Qed.

Lemma short_series_no_anomaly_witness : anomalies series_spike = [].
Proof.
  apply (short_series_no_anomaly series_spike). simpl. lia.
Defined.

(** * Further properties of the script *)

(** ** The options of the select box *)

Lemma insert_sorted_In (s t : string) (l : list string) :
  In t (insert_sorted s l) <-> t = s \/ In t l.
Proof.
  split; intros H.
  - apply (Permutation_in _ (Permutation_sym (insert_sorted_perm s l))) in H.
    simpl in H. intuition.
  - apply (Permutation_in _ (insert_sorted_perm s l)). simpl. intuition.
Qed.

Lemma insert_sorted_HdRel (s t : string) (l : list string) :
  String.leb t s = true ->
  HdRel (fun a b => String.leb a b = true) t l ->
  HdRel (fun a b => String.leb a b = true) t (insert_sorted s l).
Proof.
  intros Hts H. destruct l as [|u l]; simpl.
  - constructor. exact Hts.
  - destruct (String.leb s u); constructor; [exact Hts |].
    inversion H. assumption.
Qed.

Lemma insert_sorted_Sorted (s : string) (l : list string) :
  Sorted (fun a b => String.leb a b = true) l ->
  Sorted (fun a b => String.leb a b = true) (insert_sorted s l).
Proof.
  induction 1 as [|t l S IH H]; simpl.
  - repeat constructor.
  - destruct (String.leb s t) eqn:E.
    + constructor; [constructor; assumption | constructor; exact E].
    + constructor; [exact IH |].
      apply insert_sorted_HdRel; [| exact H].
      destruct (String.leb_total s t) as [K|K]; [congruence | exact K].
Qed.

Lemma sorted_Sorted (l : list string) :
  Sorted (fun a b => String.leb a b = true) (sorted l).
Proof.
  induction l as [|s l IH]; simpl; [constructor |].
  apply insert_sorted_Sorted. exact IH.
Qed.

Lemma leb_ne_ltb (s t : string) :
  String.leb s t = true -> s <> t -> String.ltb s t = true.
Proof.
  unfold String.leb, String.ltb. intros H N.
  destruct (String.compare s t) eqn:E; [| reflexivity | discriminate H].
  apply String.compare_eq_iff in E. contradiction.
Qed.

Lemma Sorted_strict (l : list string) :
  Sorted (fun a b => String.leb a b = true) l -> NoDup l ->
  Sorted (fun a b => String.ltb a b = true) l.
Proof.
  induction 1 as [|t l S IH H]; intros ND; [constructor |].
  apply NoDup_cons_iff in ND. destruct ND as [Nt ND].
  constructor; [apply IH; exact ND |].
  destruct H as [|u l H]; constructor.
  apply leb_ne_ltb; [exact H |].
  intros ->. apply Nt. left. reflexivity.
Qed.

(** X1: The select box offers the sentinel first and then the distinct
    non-null states of the enrolment table in strictly ascending code point
    order; its first option, the default selection, leaves the tables
    unfiltered. *)
Theorem state_options_sorted (E : DataFrame) :
  hd_error (state_options E) = Some "All"
  /\ Sorted (fun a b => String.ltb a b = true) (tl (state_options E))
  /\ NoDup (tl (state_options E))
  /\ (forall s, In s (tl (state_options E))
                <-> exists r, In r (rows E) /\ state r = Some s)
  /\ (forall df, filtered (hd "All" (state_options E)) df = df).
Proof.
  unfold state_options. simpl.
  split; [reflexivity |].
  split.
  { apply Sorted_strict; [apply sorted_Sorted | apply state_values_NoDup]. }
  split; [apply state_values_NoDup |].
  split; [intros s; apply state_values_In | reflexivity].
Qed.

(** ** A run on well-formed sources *)

Lemma getitem_ok (c : string) (df : DataFrame) (h : Heap) :
  mem c (columns df) = true -> getitem c df h = (inr tt, h).
Proof.
  intros H. unfold getitem. rewrite H. reflexivity.
Qed.

Lemma getitems_ok (cols : list string) (df : DataFrame) (h : Heap) :
  has_columns cols df = true -> getitems cols df h = (inr tt, h).
Proof.
  unfold has_columns. induction cols as [|c cols IH]; simpl; intros H.
  - reflexivity.
  - apply andb_prop in H. destruct H as [Hc H].
    rewrite run_bind, getitem_ok by exact Hc. apply IH. exact H.
Qed.

Lemma mem_app_l (c : string) (l more : list string) :
  mem c l = true -> mem c (l ++ more) = true.
Proof.
  rewrite !mem_In, in_app_iff. tauto.
Qed.

Lemma date_fixed_columns (strptime : string -> option (Z * Z * Z))
  (c : string) (df : DataFrame) :
  mem c (columns df) = true -> mem c (columns (date_fixed strptime df)) = true.
Proof.
  intros H. unfold date_fixed. cbn [columns].
  destruct (mem "month" (columns df)); [exact H | apply mem_app_l; exact H].
Qed.

Lemma date_fixed_month (strptime : string -> option (Z * Z * Z))
  (df : DataFrame) :
  mem "month" (columns (date_fixed strptime df)) = true.
Proof.
  unfold date_fixed. cbn [columns].
  destruct (mem "month" (columns df)) eqn:E; [exact E |].
  apply mem_In, in_or_app. right. left. reflexivity.
Qed.

Lemma date_fixed_has_columns (strptime : string -> option (Z * Z * Z))
  (cols : list string) (df : DataFrame) :
  has_columns cols df = true ->
  has_columns cols (date_fixed strptime df) = true.
Proof.
  unfold has_columns. rewrite !forallb_forall. intros H c Hc.
  apply date_fixed_columns. apply H. exact Hc.
Qed.

Lemma filtered_columns (st : string) (df : DataFrame) :
  columns (filtered st df) = columns df.
Proof.
  unfold filtered. destruct (negb (st =? "All")%string); reflexivity.
Qed.

Lemma filtered_has_columns (st : string) (cols : list string) (df : DataFrame) :
  has_columns cols (filtered st df) = has_columns cols df.
Proof.
  unfold has_columns. rewrite filtered_columns. reflexivity.
Qed.

Lemma frame_total_ok (cols : list string) (l : loc) (h : Heap) :
  has_columns cols (nth l h empty_frame) = true ->
  frame_total cols l h = (inr (total cols (rows (nth l h empty_frame))), h).
Proof.
  intros H. unfold frame_total. rewrite run_bind. unfold deref.
  rewrite run_bind, getitems_ok by exact H. reflexivity.
Qed.

Lemma frame_monthly_ok (cols : list string) (l : loc) (h : Heap) :
  mem "month" (columns (nth l h empty_frame)) = true ->
  has_columns cols (nth l h empty_frame) = true ->
  frame_monthly cols l h
  = (inr (monthly_sum cols (rows (nth l h empty_frame))), h).
Proof.
  intros Hm H. unfold frame_monthly. rewrite run_bind. unfold deref.
  rewrite run_bind, getitem_ok by exact Hm.
  rewrite run_bind, getitems_ok by exact H. reflexivity.
Qed.

Lemma show_run (render : view -> option exn) (v : view) (h : Heap) :
  show render v h
  = (match render v with Some e => inl e | None => inr tt end, h).
Proof.
  unfold show. destruct (render v); reflexivity.
Qed.

Lemma frame_age_dist_ok (l : loc) (h : Heap) :
  has_columns enrol_cols (nth l h empty_frame) = true ->
  frame_age_dist l h = (inr (age_dist (nth l h empty_frame)), h).
Proof.
  intros H. unfold frame_age_dist. rewrite run_bind. unfold deref.
  rewrite run_bind, getitems_ok by exact H. reflexivity.
Qed.

(** The stages after the filter raise nothing of their own on frames that
    have the columns: they end as the presentation calls let them. *)
Lemma analyse_run (render : view -> option exn) (e : Env) (h : Heap)
  (E D B : DataFrame) :
  frames e h = (E, D, B) ->
  has_columns enrol_cols E = true ->
  has_columns ("month" :: demo_cols) D = true ->
  has_columns ("month" :: bio_cols) B = true ->
  analyse render e h
  = (presented render
       (mkOutputs (total enrol_cols (rows E)) (total demo_cols (rows D))
                  (total bio_cols (rows B))
                  (monthly_sum demo_cols (rows D))
                  (monthly_sum bio_cols (rows B))
                  (add_fill0 (monthly_sum demo_cols (rows D))
                             (monthly_sum bio_cols (rows B)))
                  (anomalies (add_fill0 (monthly_sum demo_cols (rows D))
                                        (monthly_sum bio_cols (rows B))))
                  (rolling_avg (add_fill0 (monthly_sum demo_cols (rows D))
                                          (monthly_sum bio_cols (rows B)))))
       (age_dist E), h).
Proof.
  intros F HE HD HB. unfold frames in F. inversion F as [[FE FD FB]].
  clear F. unfold has_columns in HD, HB. cbn [forallb] in HD, HB.
  apply andb_prop in HD, HB. destruct HD as [MD HD], HB as [MB HB].
  unfold analyse, presented, views_of.
  cbn [first_raise total_enrol total_demo total_bio monthly_demo monthly_bio
       monthly_total anomalies_found rolling_trend].
  rewrite run_bind, frame_total_ok by (rewrite FE; exact HE).
  rewrite run_bind, frame_total_ok by (rewrite FD; exact HD).
  rewrite run_bind, frame_total_ok by (rewrite FB; exact HB).
  rewrite FE, FD, FB.
  rewrite run_bind, show_run.
  destruct (render (Metrics _ _ _)); [reflexivity |].
  rewrite run_bind, frame_monthly_ok by (rewrite FD; assumption).
  rewrite run_bind, frame_monthly_ok by (rewrite FB; assumption).
  rewrite FD, FB.
  rewrite run_bind, show_run.
  destruct (render (TrendChart _ _)); [reflexivity |].
  cbv zeta.
  rewrite run_bind, show_run.
  destruct (render (AnomalyChart _ _)); [reflexivity |].
  rewrite run_bind, show_run.
  destruct (render (RollingChart _ _)); [reflexivity |].
  rewrite run_bind, frame_age_dist_ok by (rewrite FE; exact HE).
  rewrite FE.
  rewrite run_bind, show_run.
  destruct (render (AgePie _)); reflexivity.
Qed.

Lemma date_fix_all_ok (strptime : string -> option (Z * Z * Z))
  (E D B : DataFrame) :
  mem "date" (columns E) = true -> mem "date" (columns D) = true ->
  mem "date" (columns B) = true ->
  date_fix_all strptime (mkEnv 0 1 2)%nat [E; D; B]
  = (inr tt, [date_fixed strptime E; date_fixed strptime D;
              date_fixed strptime B]).
Proof.
  intros HE HD HB. unfold date_fix_all, enrol, demo, bio.
  rewrite run_bind, date_fix_ok by exact HE. simpl.
  rewrite run_bind, date_fix_ok by exact HD. simpl.
  rewrite date_fix_ok by exact HB. reflexivity.
Qed.

(** The run up to the filter block, on sources that have their date
    columns and an enrolment table with a state column. *)
Lemma app_to_filter (strptime : string -> option (Z * Z * Z))
  (fs : string -> option DataFrame) (render : view -> option exn)
  (pick : list string -> string) (E D B : DataFrame) :
  fs "api_data_aadhar_enrolment.csv" = Some E ->
  fs "api_data_aadhar_demograp.csv" = Some D ->
  fs "api_data_aadhar_biometric.csv" = Some B ->
  mem "date" (columns E) = true -> mem "date" (columns D) = true ->
  mem "date" (columns B) = true -> mem "state" (columns E) = true ->
  app strptime fs render pick []
  = (e' <- filter_stage (pick (state_options (date_fixed strptime E)))
             (mkEnv 0 1 2)%nat ;;
     analyse render e')
      [date_fixed strptime E; date_fixed strptime D; date_fixed strptime B].
Proof.
  intros FE FD FB DE DD DB SE.
  pose proof (load_data_ok fs E D B [] FE FD FB) as Hl. simpl in Hl.
  unfold app. rewrite run_bind, Hl.
  rewrite run_bind, (date_fix_all_ok strptime E D B DE DD DB).
  rewrite run_bind. unfold options at 1. rewrite run_bind. unfold deref at 1.
  cbn [enrol nth].
  rewrite run_bind, getitem_ok by (apply date_fixed_columns; exact SE).
  reflexivity.
Qed.

Lemma has_columns_cons (c : string) (cols : list string) (df : DataFrame) :
  has_columns (c :: cols) df = true ->
  mem c (columns df) = true /\ has_columns cols df = true.
Proof.
  unfold has_columns. cbn [forallb]. apply andb_prop.
Qed.

Lemma month_and_columns (strptime : string -> option (Z * Z * Z))
  (st : string) (cols : list string) (df : DataFrame) :
  has_columns cols df = true ->
  has_columns ("month" :: cols) (filtered st (date_fixed strptime df)) = true.
Proof.
  intros H. rewrite filtered_has_columns. unfold has_columns. cbn [forallb].
  rewrite date_fixed_month. apply date_fixed_has_columns. exact H.
Qed.

(** A run on sources with all the columns. *)
Lemma run_on_sources (strptime : string -> option (Z * Z * Z))
  (fs : string -> option DataFrame) (render : view -> option exn)
  (pick : list string -> string) (E D B : DataFrame) :
  fs "api_data_aadhar_enrolment.csv" = Some E ->
  fs "api_data_aadhar_demograp.csv" = Some D ->
  fs "api_data_aadhar_biometric.csv" = Some B ->
  has_columns ("date" :: "state" :: enrol_cols) E = true ->
  has_columns ("date" :: "state" :: demo_cols) D = true ->
  has_columns ("date" :: "state" :: bio_cols) B = true ->
  fst (app strptime fs render pick [])
  = presented render (pipeline strptime pick E D B)
      (age_dist (filtered (pick (state_options (date_fixed strptime E)))
                          (date_fixed strptime E))).
Proof.
  intros FE FD FB HE HD HB.
  apply has_columns_cons in HE, HD, HB.
  destruct HE as [DE HE], HD as [DD HD], HB as [DB HB].
  apply has_columns_cons in HE, HD, HB.
  destruct HE as [SE HE], HD as [SD HD], HB as [SB HB].
  rewrite (app_to_filter strptime fs render pick E D B) by assumption.
  set (h := [date_fixed strptime E; date_fixed strptime D;
             date_fixed strptime B]).
  set (st := pick (state_options (date_fixed strptime E))).
  assert (loaded (mkEnv 0 1 2)%nat h = true) as L.
  { unfold loaded, h. cbn [enrol demo bio nth length].
    rewrite !date_fixed_columns by assumption. reflexivity. }
  destruct (filter_stage_run st (mkEnv 0 1 2)%nat h L) as [e' [more [Hrun Hfr]]].
  rewrite run_bind, Hrun.
  cbn [enrol demo bio nth h] in Hfr.
  rewrite (analyse_run render e' (h ++ more) _ _ _ Hfr).
  - reflexivity.
  - rewrite filtered_has_columns. apply date_fixed_has_columns. exact HE.
  - apply month_and_columns. exact HD.
  - apply month_and_columns. exact HB.
Qed.

(** X2: With the three files present and every column the script reads in
    their headers, no data step of a run raises: the run ends with the
    exception of the first presentation call that raises, taken in source
    order on the computed data, and otherwise returns the totals, monthly
    series, anomalies and trend of the date-normalised tables filtered by
    the selection. *)
Theorem app_on_well_formed_sources (strptime : string -> option (Z * Z * Z))
  (fs : string -> option DataFrame) (render : view -> option exn)
  (pick : list string -> string) (E D B : DataFrame) :
  fs "api_data_aadhar_enrolment.csv" = Some E ->
  fs "api_data_aadhar_demograp.csv" = Some D ->
  fs "api_data_aadhar_biometric.csv" = Some B ->
  has_columns ("date" :: "state" :: enrol_cols) E = true ->
  has_columns ("date" :: "state" :: demo_cols) D = true ->
  has_columns ("date" :: "state" :: bio_cols) B = true ->
  fst (app strptime fs render pick [])
  = match first_raise render
            (views_of (pipeline strptime pick E D B)
               (age_dist
                  (filtered (pick (state_options (date_fixed strptime E)))
                            (date_fixed strptime E)))) with
    | Some e => inl e
    | None => inr (pipeline strptime pick E D B)
    end.
Proof.
  intros FE FD FB HE HD HB.
  apply (run_on_sources strptime fs render pick E D B); assumption.
Qed.

Lemma app_on_well_formed_sources_witness :
  fst (app strptime_dmy (files enrol_two demo_two bio_two) render_ok
         pick_kerala [])
  = inr (pipeline strptime_dmy pick_kerala enrol_two demo_two bio_two)
  /\ total_enrol (pipeline strptime_dmy pick_kerala enrol_two demo_two bio_two)
     = 108
  /\ monthly_total (pipeline strptime_dmy pick_kerala enrol_two demo_two bio_two)
     = [(662, 11); (663, 13)]
  /\ hd_error (views_of (pipeline strptime_dmy pick_kerala
                           enrol_two demo_two bio_two) [])
     = Some (Metrics "108" "13" "11").
Proof.
  split; [| repeat split; vm_compute; reflexivity].
  apply (app_on_well_formed_sources strptime_dmy
           (files enrol_two demo_two bio_two) render_ok pick_kerala
           enrol_two demo_two bio_two); reflexivity.
Defined.

(** ** Missing files *)

(** X3: The first of the three files that is absent, in reading order, is the
    FileNotFoundError of the run; nothing after [load_data] is run. *)
Theorem missing_file_error (strptime : string -> option (Z * Z * Z))
  (fs : string -> option DataFrame) (render : view -> option exn)
  (pick : list string -> string) (p : string) :
  find (fun q => match fs q with None => true | Some _ => false end)
       ["api_data_aadhar_enrolment.csv"; "api_data_aadhar_demograp.csv";
        "api_data_aadhar_biometric.csv"] = Some p ->
  fst (load_data fs []) = inl (FileNotFoundError p)
  /\ app strptime fs render pick [] = (inl (FileNotFoundError p), snd (load_data fs [])).
Proof.
  intros H. unfold app. rewrite run_bind.
  unfold load_data. rewrite !run_bind. unfold read_csv.
  simpl in H.
  destruct (fs "api_data_aadhar_enrolment.csv") as [E|].
  - destruct (fs "api_data_aadhar_demograp.csv") as [D|].
    + destruct (fs "api_data_aadhar_biometric.csv") as [B|].
      * discriminate H.
      * injection H as <-. split; reflexivity.
    + injection H as <-. split; reflexivity.
  - injection H as <-. split; reflexivity.
Qed.

Lemma missing_file_error_witness :
  fst (app strptime_dmy
         (fun q => if String.eqb q "api_data_aadhar_demograp.csv" then None
                   else Some enrol_two)
         render_ok pick_first [])
  = inl (FileNotFoundError "api_data_aadhar_demograp.csv").
Proof.
  destruct (missing_file_error strptime_dmy
              (fun q => if String.eqb q "api_data_aadhar_demograp.csv"
                        then None else Some enrol_two)
              render_ok pick_first "api_data_aadhar_demograp.csv" eq_refl)
    as [_ H].
  rewrite H. reflexivity.
Defined.

(** ** The state column of the update tables *)

Lemma filter_frame_keyerror (st : string) (l : loc) (h : Heap) :
  mem "state" (columns (nth l h empty_frame)) = false ->
  filter_frame st l h = (inl (KeyError "state"), h).
Proof.
  intros H. cbv [filter_frame bind deref getitem raise]. rewrite H. reflexivity.
Qed.

(** X4: The state column of the demographic table is read only when a state
    is selected: without it a run with the selection "All" raises no
    KeyError and ends as the presentation calls let it, on the unfiltered
    results, while a run with any other selection ends in KeyError
    'state'. *)
Theorem demo_state_column_read_on_filter
  (strptime : string -> option (Z * Z * Z))
  (fs : string -> option DataFrame) (render : view -> option exn)
  (pick : list string -> string) (E D B : DataFrame) :
  fs "api_data_aadhar_enrolment.csv" = Some E ->
  fs "api_data_aadhar_demograp.csv" = Some D ->
  fs "api_data_aadhar_biometric.csv" = Some B ->
  has_columns ("date" :: "state" :: enrol_cols) E = true ->
  has_columns ("date" :: demo_cols) D = true ->
  mem "state" (columns D) = false ->
  has_columns ("date" :: "state" :: bio_cols) B = true ->
  (pick (state_options (date_fixed strptime E)) = "All" ->
   fst (app strptime fs render pick [])
   = match first_raise render
             (views_of (pipeline strptime pick E D B)
                       (age_dist (date_fixed strptime E))) with
     | Some e => inl e
     | None => inr (pipeline strptime pick E D B)
     end)
  /\ (pick (state_options (date_fixed strptime E)) <> "All" ->
      fst (app strptime fs render pick []) = inl (KeyError "state")).
Proof.
  intros FE FD FB HE HD ND HB.
  apply has_columns_cons in HE, HD, HB.
  destruct HE as [DE HE], HD as [DD HD], HB as [DB HB].
  apply has_columns_cons in HE, HB.
  destruct HE as [SE HE], HB as [SB HB].
  rewrite (app_to_filter strptime fs render pick E D B) by assumption.
  set (st := pick (state_options (date_fixed strptime E))).
  set (h := [date_fixed strptime E; date_fixed strptime D;
             date_fixed strptime B]).
  split.
  - intros Hall. rewrite run_bind. unfold filter_stage. rewrite Hall.
    cbn [String.eqb Ascii.eqb Bool.eqb negb]. unfold ret at 1.
    rewrite (analyse_run render (mkEnv 0 1 2)%nat h
               (date_fixed strptime E) (date_fixed strptime D)
               (date_fixed strptime B) eq_refl).
    + unfold pipeline, presented. fold st. rewrite Hall. reflexivity.
    + apply date_fixed_has_columns. exact HE.
    + unfold has_columns. cbn [forallb].
      rewrite date_fixed_month. apply date_fixed_has_columns. exact HD.
    + unfold has_columns. cbn [forallb].
      rewrite date_fixed_month. apply date_fixed_has_columns. exact HB.
  - intros Hst. rewrite run_bind. unfold filter_stage.
    destruct (String.eqb_spec st "All") as [K|_]; [contradiction |].
    cbn [negb]. rewrite run_bind.
    rewrite filter_frame_ok
      by (cbn [enrol nth h]; apply date_fixed_columns; exact SE).
    rewrite run_bind, filter_frame_keyerror; [reflexivity |].
    cbn [demo]. unfold h. simpl nth.
    unfold date_fixed. cbn [columns].
    destruct (mem "month" (columns D)); [exact ND |].
    apply mem_false. intros K. apply in_app_or in K.
    destruct K as [K|[K|[]]]; [| discriminate K].
    apply mem_false in ND. contradiction.
Qed.

Lemma demo_state_column_read_on_filter_witness :
  fst (app strptime_dmy (files enrol_two demo_no_state bio_two) render_ok
         pick_first [])
  = inr (pipeline strptime_dmy pick_first enrol_two demo_no_state bio_two)
  /\ fst (app strptime_dmy (files enrol_two demo_no_state bio_two) render_ok
            pick_kerala [])
     = inl (KeyError "state").
Proof.
  split.
  - apply (demo_state_column_read_on_filter strptime_dmy
             (files enrol_two demo_no_state bio_two) render_ok pick_first
             enrol_two demo_no_state bio_two); reflexivity.
  - apply (demo_state_column_read_on_filter strptime_dmy
             (files enrol_two demo_no_state bio_two) render_ok pick_kerala
             enrol_two demo_no_state bio_two); try reflexivity.
    vm_compute. discriminate.
Defined.

(** ** A selection that matches no update record *)

Lemma filtered_miss (st : string) (df : DataFrame) :
  st <> "All" ->
  (forall r, In r (rows df) -> state r <> Some st) ->
  rows (filtered st df) = [].
Proof.
  intros Hst H. unfold filtered.
  destruct (String.eqb_spec st "All") as [K|_]; [contradiction |].
  simpl. apply filter_none. intros r Hr. unfold state_is.
  destruct (state r) as [t|] eqn:E; [| reflexivity].
  destruct (String.eqb_spec t st) as [->|_]; [| reflexivity].
  exfalso. apply (H r Hr). exact E.
Qed.

Lemma date_fixed_state (strptime : string -> option (Z * Z * Z))
  (df : DataFrame) (r : Row) :
  In r (rows (date_fixed strptime df)) ->
  exists r0, In r0 (rows df) /\ state r = state r0.
Proof.
  unfold date_fixed. cbn [rows]. rewrite in_map_iff.
  intros [r0 [<- H]]. exists r0. split; [exact H | reflexivity].
Qed.

(** X5: When the selected state has no record in the demographic and biometric
    tables, the data steps raise nothing: both update totals are 0 and the
    line chart of line 80 is called on two empty monthly series.  The run
    ends with the first exception of a presentation call, these being the
    metrics with "0" for both update totals, the trend chart, the anomaly
    chart and the rolling chart on empty series, and the age pie; if none
    raises, the outputs have zero update totals and empty series. *)
Theorem selection_without_updates (strptime : string -> option (Z * Z * Z))
  (fs : string -> option DataFrame) (render : view -> option exn)
  (pick : list string -> string) (E D B : DataFrame) :
  fs "api_data_aadhar_enrolment.csv" = Some E ->
  fs "api_data_aadhar_demograp.csv" = Some D ->
  fs "api_data_aadhar_biometric.csv" = Some B ->
  has_columns ("date" :: "state" :: enrol_cols) E = true ->
  has_columns ("date" :: "state" :: demo_cols) D = true ->
  has_columns ("date" :: "state" :: bio_cols) B = true ->
  pick (state_options (date_fixed strptime E)) <> "All" ->
  (forall r, In r (rows D ++ rows B) ->
     state r <> Some (pick (state_options (date_fixed strptime E)))) ->
  fst (app strptime fs render pick [])
  = match first_raise render
            [Metrics
               (format_int
                  (total enrol_cols
                     (rows (filtered
                              (pick (state_options (date_fixed strptime E)))
                              (date_fixed strptime E)))))
               "0" "0";
             TrendChart [] []; AnomalyChart [] []; RollingChart [] [];
             AgePie
               (age_dist
                  (filtered (pick (state_options (date_fixed strptime E)))
                            (date_fixed strptime E)))] with
    | Some e => inl e
    | None =>
        inr (mkOutputs
               (total enrol_cols
                  (rows (filtered
                           (pick (state_options (date_fixed strptime E)))
                           (date_fixed strptime E))))
               0 0 [] [] [] [] [])
    end.
Proof.
  intros FE FD FB HE HD HB Hst H.
  rewrite (run_on_sources strptime fs render pick E D B) by assumption.
  unfold presented, views_of, pipeline.
  set (st := pick (state_options (date_fixed strptime E))) in *.
  assert (rows (filtered st (date_fixed strptime D)) = []) as RD.
  { apply filtered_miss; [exact Hst |]. intros r Hr.
    apply date_fixed_state in Hr. destruct Hr as [r0 [Hr0 ->]].
    apply H. apply in_or_app. left. exact Hr0. }
  assert (rows (filtered st (date_fixed strptime B)) = []) as RB.
  { apply filtered_miss; [exact Hst |]. intros r Hr.
    apply date_fixed_state in Hr. destruct Hr as [r0 [Hr0 ->]].
    apply H. apply in_or_app. right. exact Hr0. }
  cbn [total_enrol total_demo total_bio monthly_demo monthly_bio monthly_total
       anomalies_found rolling_trend].
  rewrite RD, RB. reflexivity.
Qed.

Lemma selection_without_updates_witness :
  fst (app strptime_dmy
         (files enrol_two
                (mkDF demo_header [demo_row (Some "Kerala") "01-04-2025" 6 7])
                bio_two)
         render_no_empty_chart pick_goa [])
  = inl (ViewError "ValueError")
  /\ fst (app strptime_dmy
            (files enrol_two
                   (mkDF demo_header
                         [demo_row (Some "Kerala") "01-04-2025" 6 7])
                   bio_two)
            render_ok pick_goa [])
     = inr (mkOutputs 6 0 0 [] [] [] [] []).
Proof.
  split.
  - rewrite (selection_without_updates strptime_dmy
               (files enrol_two
                      (mkDF demo_header
                            [demo_row (Some "Kerala") "01-04-2025" 6 7])
                      bio_two)
               render_no_empty_chart pick_goa enrol_two
               (mkDF demo_header [demo_row (Some "Kerala") "01-04-2025" 6 7])
               bio_two); try reflexivity.
    + vm_compute. discriminate.
    + intros r Hr. simpl in Hr.
      destruct Hr as [<-|[<-|[]]]; vm_compute; discriminate.
  - rewrite (selection_without_updates strptime_dmy
               (files enrol_two
                      (mkDF demo_header
                            [demo_row (Some "Kerala") "01-04-2025" 6 7])
                      bio_two)
               render_ok pick_goa enrol_two
               (mkDF demo_header [demo_row (Some "Kerala") "01-04-2025" 6 7])
               bio_two); try reflexivity.
    + vm_compute. discriminate.
    + intros r Hr. simpl in Hr.
      destruct Hr as [<-|[<-|[]]]; vm_compute; discriminate.
Defined.

(** ** Row order *)

Lemma total_perm (cols : list string) (a b : list Row) :
  Permutation a b -> total cols a = total cols b.
Proof.
  induction 1 as [|r a b P IH|r r' a|a b c P1 IH1 P2 IH2].
  - reflexivity.
  - rewrite !total_cons, IH. reflexivity.
  - rewrite !total_cons. lia.
  - congruence.
Qed.

Lemma filter_perm {A : Type} (f : A -> bool) (a b : list A) :
  Permutation a b -> Permutation (filter f a) (filter f b).
Proof.
  induction 1 as [|r a b P IH|r r' a|a b c P1 IH1 P2 IH2]; simpl.
  - constructor.
  - destruct (f r); [constructor |]; exact IH.
  - destruct (f r), (f r'); try reflexivity. apply perm_swap.
  - eapply perm_trans; eassumption.
Qed.

(** X6: The totals and the monthly sums do not depend on the order of the
    records in the table. *)
Theorem aggregates_ignore_row_order (cols : list string) (a b : list Row) :
  Permutation a b ->
  total cols a = total cols b /\ monthly_sum cols a = monthly_sum cols b.
Proof.
  intros P. split; [apply total_perm; exact P |].
  rewrite (monthly_sum_map cols a), (monthly_sum_map cols b).
  rewrite !monthly_sum_keys.
  destruct (groupby_month_spec a) as [Sa [Ka _]].
  destruct (groupby_month_spec b) as [Sb [Kb _]].
  assert (map fst (groupby_month a) = map fst (groupby_month b)) as ->.
  { apply sorted_ext; try assumption.
    intros k. rewrite Ka, Kb. split; intros [r [H1 H2]]; exists r; split;
      try exact H2.
    - apply (Permutation_in _ P). exact H1.
    - apply (Permutation_in _ (Permutation_sym P)). exact H1. }
  apply map_ext. intros k. f_equal.
  apply total_perm, filter_perm. exact P.
Qed.

Lemma aggregates_ignore_row_order_witness :
  monthly_sum demo_cols (rev (rows (date_fixed strptime_dmy demo_two)))
  = monthly_sum demo_cols (rows (date_fixed strptime_dmy demo_two)).
Proof.
  apply (aggregates_ignore_row_order demo_cols).
  apply Permutation_sym, Permutation_rev.
Defined.

(** ** The month ordinal *)

(** X7: For dates with a month between 1 and 12, the order of the month
    ordinals is the order of the calendar months, and two dates have the same
    ordinal exactly when they are in the same month of the same year: the
    ascending order of a monthly series is the chronological one. *)
Theorem to_period_chronological (y m d y' m' d' k k' : Z) :
  1 <= m <= 12 -> 1 <= m' <= 12 ->
  to_period (Stamp y m d) = Some k ->
  to_period (Stamp y' m' d') = Some k' ->
  (k < k' <-> y < y' \/ (y = y' /\ m < m'))
  /\ (k = k' <-> y = y' /\ m = m').
Proof.
  intros Hm Hm' [= <-] [= <-]. split; lia.
Qed.

Lemma to_period_chronological_witness :
  to_period (Stamp 2024 12 31) = Some 659
  /\ to_period (Stamp 2025 1 1) = Some 660
  /\ (659 < 660 <-> 2024 < 2025 \/ (2024 = 2025 /\ 12 < 1)).
Proof.
  split; [reflexivity |]. split; [reflexivity |].
  apply (to_period_chronological 2024 12 31 2025 1 1 659 660);
    try lia; reflexivity.
Defined.

(** ** The monthly series against the scalar totals *)

Lemma key_absent (k0 x : Z) (U : list Z) :
  ~ In k0 U -> zsum (map (fun k => if k =? k0 then x else 0) U) = 0.
Proof.
  induction U as [|u U IH]; simpl; intros H; [reflexivity |].
  destruct (Z.eqb_spec u k0) as [->|_]; [exfalso; apply H; left; reflexivity |].
  apply IH. intros K. apply H. right. exact K.
Qed.

Lemma key_once (k0 x : Z) (U : list Z) :
  NoDup U -> In k0 U -> zsum (map (fun k => if k =? k0 then x else 0) U) = x.
Proof.
  induction 1 as [|u U Hu ND IH]; simpl; intros H; [contradiction |].
  destruct (Z.eqb_spec u k0) as [->|N].
  - rewrite key_absent by exact Hu. lia.
  - destruct H as [H|H]; [contradiction |]. rewrite IH by exact H. lia.
Qed.

Lemma sum_fill_get (U : list Z) (a : Series) :
  NoDup U -> NoDup (keys a) -> incl (keys a) U ->
  zsum (map (fun k => fill0 (get k a)) U) = zsum (map snd a).
Proof.
  intros NU. induction a as [|[k0 v] a IH]; intros Na Hin.
  - simpl. apply zsum_map_zero.
  - simpl in Na. apply NoDup_cons_iff in Na. destruct Na as [N0 Na].
    rewrite (map_ext _ (fun k => (if k =? k0 then v else 0) + fill0 (get k a))).
    + rewrite zsum_map_add, key_once, IH.
      * reflexivity.
      * exact Na.
      * intros k Hk. apply Hin. right. exact Hk.
      * exact NU.
      * apply Hin. left. reflexivity.
    + intros k. simpl. destruct (Z.eqb_spec k k0) as [->|_]; [| reflexivity].
      apply get_None in N0. rewrite N0. simpl. lia.
Qed.

Lemma add_fill0_sum (a b : Series) :
  NoDup (keys a) -> NoDup (keys b) ->
  zsum (map snd (add_fill0 a b)) = zsum (map snd a) + zsum (map snd b).
Proof.
  intros Na Nb. unfold add_fill0. rewrite map_map. cbn [snd].
  rewrite zsum_map_add.
  assert (NoDup (union_index (keys a) (keys b))) as NU
    by (apply union_index_NoDup; exact Na).
  rewrite !sum_fill_get; try assumption; try reflexivity.
  - intros k Hk. apply union_index_In. right. exact Hk.
  - intros k Hk. apply union_index_In. left. exact Hk.
Qed.

Lemma month_once (ks : list Z) (r : Row) (x : Z) :
  NoDup ks ->
  (forall k, month r = Some k -> In k ks) ->
  zsum (map (fun k => if has_month k r then x else 0) ks)
  = if null_month r then 0 else x.
Proof.
  intros ND H. unfold has_month, null_month.
  destruct (month r) as [m|].
  - rewrite (map_ext _ (fun k => if k =? m then x else 0))
      by (intros k; rewrite Z.eqb_sym; reflexivity).
    apply key_once; [exact ND | apply H; reflexivity].
  - apply zsum_map_zero.
Qed.

Lemma month_totals (cols : list string) (ks : list Z) (rs : list Row) :
  NoDup ks ->
  (forall r k, In r rs -> month r = Some k -> In k ks) ->
  zsum (map (fun k => total cols (filter (has_month k) rs)) ks)
  = total cols (filter (fun r => negb (null_month r)) rs).
Proof.
  intros ND. induction rs as [|r rs IH]; intros H; simpl.
  - rewrite total_nil. apply zsum_map_zero.
  - rewrite (map_ext _ (fun k => (if has_month k r then row_sum cols r else 0)
                                  + total cols (filter (has_month k) rs))).
    + rewrite zsum_map_add, IH, month_once.
      * destruct (null_month r); simpl; [| rewrite total_cons]; reflexivity.
      * exact ND.
      * intros k Hk. apply (H r k); [left; reflexivity | exact Hk].
      * intros r' k Hr' Hk. apply (H r' k); [right; exact Hr' | exact Hk].
    + intros k. destruct (has_month k r); [apply total_cons | reflexivity].
Qed.

(** X8: The values of a monthly sum add up to the total of the records whose
    month is not null, so the combined monthly series adds up to the two
    update totals less the counts of the records whose date did not parse;
    with every date parsed, the chart and the two metrics agree. *)
Theorem monthly_series_add_up (c1 c2 : list string) (r1 r2 : list Row) :
  zsum (map snd (monthly_sum c1 r1))
  = total c1 (filter (fun r => negb (null_month r)) r1)
  /\ zsum (map snd (add_fill0 (monthly_sum c1 r1) (monthly_sum c2 r2)))
     = total c1 (filter (fun r => negb (null_month r)) r1)
       + total c2 (filter (fun r => negb (null_month r)) r2)
  /\ (forallb (fun r => negb (null_month r)) (r1 ++ r2) = true ->
      zsum (map snd (add_fill0 (monthly_sum c1 r1) (monthly_sum c2 r2)))
      = total c1 r1 + total c2 r2).
Proof.
  assert (forall c rs, zsum (map snd (monthly_sum c rs))
                       = total c (filter (fun r => negb (null_month r)) rs))
    as Hone.
  { intros c rs. rewrite (monthly_sum_map c rs), map_map. cbn [snd].
    rewrite monthly_sum_keys.
    destruct (groupby_month_spec rs) as [S [K _]].
    apply month_totals; [apply sorted_NoDup; exact S |].
    intros r k Hr Hk. apply K. exists r. auto. }
  assert (forall c rs, NoDup (keys (monthly_sum c rs))) as Hnd.
  { intros c rs. rewrite monthly_sum_keys.
    destruct (groupby_month_spec rs) as [S _]. apply sorted_NoDup. exact S. }
  split; [apply Hone |].
  split.
  - rewrite add_fill0_sum by apply Hnd. rewrite !Hone. reflexivity.
  - intros Hall. rewrite add_fill0_sum by apply Hnd. rewrite !Hone.
    rewrite forallb_app in Hall. apply andb_prop in Hall.
    destruct Hall as [H1 H2]. rewrite forallb_forall in H1, H2.
    rewrite !filter_all by assumption. reflexivity.
Qed.

(** ** How many months can be flagged *)

Lemma abs_square (d : R) : (Rabs d * Rabs d = d * d)%R.
Proof.
  rewrite <- Rabs_mult. apply Rabs_pos_eq.
  pose proof (Rle_0_sqr d) as P. unfold Rsqr in P. exact P.
Qed.

(** Above the threshold means a squared deviation above four times the
    variance. *)
Lemma flag_square_iff (d V : R) :
  (0 < V)%R -> (2 < Rabs d / sqrt V <-> 4 * V < d * d)%R.
Proof.
  intros HV. pose proof (sqrt_lt_R0 V HV) as Hs.
  pose proof (sqrt_sqrt V (Rlt_le _ _ HV)) as Hsq.
  pose proof (Rabs_pos d) as Ha. pose proof (abs_square d) as Hd.
  set (a := Rabs d) in *. set (g := sqrt V) in *.
  assert (a / g * g = a)%R as Hag by (field; lra).
  split; intros H.
  - assert (2 * g < a)%R as H2.
    { rewrite <- Hag. apply Rmult_lt_compat_r; lra. }
    assert (0 < (a - 2 * g) * (a + 2 * g))%R as P
      by (apply Rmult_lt_0_compat; lra).
    lra.
  - destruct (Rlt_dec 2 (a / g)) as [K|K]; [exact K |].
    exfalso. apply Rnot_lt_le in K.
    assert (a <= 2 * g)%R as H2.
    { rewrite <- Hag. apply Rmult_le_compat_r; lra. }
    assert (0 <= (2 * g - a) * (2 * g + a))%R as P
      by (apply Rmult_le_pos; lra).
    lra.
Qed.

Lemma rsum_filter_le {A : Type} (f : A -> R) (p : A -> bool) (l : list A) :
  (forall a, 0 <= f a)%R ->
  (rsum (map f (filter p l)) <= rsum (map f l))%R.
Proof.
  intros Hf. induction l as [|a l IH]; simpl; [lra |].
  fold (rsum (map f l)). pose proof (Hf a) as Pa.
  destruct (p a); simpl; [fold (rsum (map f (filter p l))) |]; lra.
Qed.

Lemma rsum_above {A : Type} (f : A -> R) (c : R) (l : list A) :
  l <> [] -> (forall a, In a l -> c < f a)%R ->
  (INR (length l) * c < rsum (map f l))%R.
Proof.
  induction l as [|a l IH]; intros Hne H; [contradiction |].
  change (length (a :: l)) with (S (length l)). rewrite S_INR.
  cbn [map]. rewrite rsum_cons.
  pose proof (H a (or_introl eq_refl)) as Pa.
  destruct l as [|b l].
  - simpl. lra.
  - assert (INR (length (b :: l)) * c < rsum (map f (b :: l)))%R as P.
    { apply IH; [discriminate |]. intros x Hx. apply H. right. exact Hx. }
    lra.
Qed.

Lemma sqdev_series (mu : R) (s : Series) :
  sqdev mu (values s)
  = rsum (map (fun kv => (IZR (snd kv) - mu) * (IZR (snd kv) - mu))%R s).
Proof.
  unfold sqdev, values. rewrite map_map. reflexivity.
Qed.

(** X9: Whatever the values, the flagged months are few: either none, or four
    times their number plus two is at most the number of months.  Fewer
    than a quarter of the months can be anomalies. *)
Theorem anomalies_are_few (s : Series) :
  anomalies s = []
  \/ (4 * length (anomalies s) + 2 <= length s)%nat.
Proof.
  destruct (anomalies s) as [|kv0 rest] eqn:Ea; [left; reflexivity |].
  right. rewrite <- Ea.
  assert (anomalies s <> []) as Hne by (rewrite Ea; discriminate).
  clear Ea kv0 rest. revert Hne.
  rewrite anomalies_detect. unfold detectAnomalies.
  destruct (length (values s) <? 2)%nat eqn:Hn; [intros K; contradiction |].
  apply Nat.ltb_ge in Hn.
  destruct (variance_facts (values s) Hn) as [HV [Hsq Hdev]].
  set (n := INR (length (values s))) in *.
  set (mu := (rsum (values s) / n)%R) in *.
  set (V := (sqdev mu (values s) / (n - 1))%R) in *.
  destruct (Req_dec_T (sqrt V) 0) as [_|Hs]; [intros K; contradiction |].
  assert (0 < V)%R as HVpos.
  { destruct HV as [HV|HV]; [exact HV |].
    exfalso. apply Hs. rewrite <- HV. apply sqrt_0. }
  set (flag := fun kv : Z * Z =>
                 if Rlt_dec 2 (Rabs (IZR (snd kv) - mu) / sqrt V)
                 then true else false).
  set (dsq := fun kv : Z * Z =>
                ((IZR (snd kv) - mu) * (IZR (snd kv) - mu))%R).
  intros Hne.
  assert (INR (length (filter flag s)) * (4 * V)
          < rsum (map dsq (filter flag s)))%R as Hlow.
  { apply rsum_above; [exact Hne |]. intros kv Hkv.
    apply filter_In in Hkv. destruct Hkv as [_ Hf]. unfold flag in Hf.
    destruct (Rlt_dec 2 (Rabs (IZR (snd kv) - mu) / sqrt V)) as [K|_];
      [| discriminate Hf].
    apply flag_square_iff in K; [exact K | exact HVpos]. }
  assert (rsum (map dsq (filter flag s)) <= sqdev mu (values s))%R as Hup.
  { rewrite sqdev_series. apply rsum_filter_le. intros kv. unfold dsq.
    pose proof (Rle_0_sqr (IZR (snd kv) - mu)) as P. unfold Rsqr in P.
    exact P. }
  rewrite Hdev in Hup.
  assert (4 * INR (length (filter flag s)) < n - 1)%R as Hreal.
  { apply Rmult_lt_reg_r with (r := V); [exact HVpos |]. lra. }
  assert (INR (4 * length (filter flag s) + 1) < INR (length s))%R as Hnat.
  { rewrite plus_INR, mult_INR. simpl INR.
    unfold n in Hreal. rewrite values_length in Hreal. lra. }
  apply INR_lt in Hnat. lia.
Qed.

(** ** A lone spike *)

Lemma rsum_constant (c : Z) (l : Series) :
  (forall kv, In kv l -> snd kv = c) ->
  rsum (values l) = (INR (length l) * IZR c)%R.
Proof.
  induction l as [|kv l IH]; intros H.
  - simpl. lra.
  - change (values (kv :: l)) with (IZR (snd kv) :: values l).
    change (length (kv :: l)) with (S (length l)).
    rewrite rsum_cons, S_INR, IH by (intros q Hq; apply H; right; exact Hq).
    rewrite (H kv) by (left; reflexivity). lra.
Qed.

Lemma sqdev_constant (mu : R) (c : Z) (l : Series) :
  (forall kv, In kv l -> snd kv = c) ->
  sqdev mu (values l)
  = (INR (length l) * ((IZR c - mu) * (IZR c - mu)))%R.
Proof.
  induction l as [|kv l IH]; intros H.
  - unfold sqdev. simpl. lra.
  - change (values (kv :: l)) with (IZR (snd kv) :: values l).
    change (length (kv :: l)) with (S (length l)).
    rewrite sqdev_cons, S_INR, IH by (intros q Hq; apply H; right; exact Hq).
    rewrite (H kv) by (left; reflexivity). lra.
Qed.

Lemma values_app (a b : Series) : values (a ++ b) = values a ++ values b.
Proof.
  unfold values. apply map_app.
Qed.

(** X10: Among at least five months of one common value, a single month with
    another value is flagged, however small the difference, and it is the
    only month flagged: from six points on the threshold can be passed. *)
Theorem lone_spike_flagged (l1 l2 : Series) (k c x : Z) :
  (forall kv, In kv (l1 ++ l2) -> snd kv = c) ->
  x <> c ->
  (5 <= length (l1 ++ l2))%nat ->
  anomalies (l1 ++ (k, x) :: l2) = [(k, x)].
Proof.
  intros Hc Hx Hlen.
  assert (forall kv, In kv l1 -> snd kv = c) as Hc1
    by (intros kv H; apply Hc, in_or_app; left; exact H).
  assert (forall kv, In kv l2 -> snd kv = c) as Hc2
    by (intros kv H; apply Hc, in_or_app; right; exact H).
  set (s := l1 ++ (k, x) :: l2).
  set (M := INR (length (l1 ++ l2))).
  set (C := IZR c). set (X := IZR x).
  assert (5 <= M)%R as HM.
  { unfold M. apply le_INR in Hlen. simpl in Hlen. lra. }
  assert (X - C <> 0)%R as HD.
  { unfold X, C. intros K. apply Hx. apply eq_IZR. lra. }
  assert (INR (length (values s)) = M + 1)%R as Hn.
  { unfold M, s. rewrite values_length, !length_app. simpl length.
    rewrite !plus_INR, S_INR. lra. }
  assert (rsum (values s) = M * C + X)%R as Hsum.
  { unfold s. rewrite values_app.
    change (values ((k, x) :: l2)) with (IZR x :: values l2).
    rewrite rsum_app, rsum_cons, (rsum_constant c l1 Hc1),
      (rsum_constant c l2 Hc2).
    unfold M. rewrite length_app, plus_INR. fold C X. lra. }
  assert (forall mu, sqdev mu (values s)
                     = M * ((C - mu) * (C - mu)) + (X - mu) * (X - mu))%R
    as Hdev.
  { intros mu. unfold s. rewrite values_app.
    change (values ((k, x) :: l2)) with (IZR x :: values l2).
    rewrite sqdev_app, sqdev_cons, (sqdev_constant mu c l1 Hc1),
      (sqdev_constant mu c l2 Hc2).
    unfold M. rewrite length_app, plus_INR. fold C X. lra. }
  rewrite anomalies_detect. unfold detectAnomalies. fold s.
  assert ((length (values s) <? 2)%nat = false) as Hge.
  { apply Nat.ltb_ge. unfold s. rewrite values_length, length_app.
    simpl length. rewrite length_app in Hlen. lia. }
  rewrite Hge, Hn, Hsum, Hdev.
  set (mu := ((M * C + X) / (M + 1))%R).
  replace (M + 1 - 1)%R with M by lra.
  set (D := (X - C)%R) in *.
  assert (C - mu = - D / (M + 1))%R as HCm by (unfold mu, D; field; lra).
  assert (X - mu = M * D / (M + 1))%R as HXm by (unfold mu, D; field; lra).
  rewrite HCm, HXm.
  set (V := ((M * (- D / (M + 1) * (- D / (M + 1)))
              + M * D / (M + 1) * (M * D / (M + 1))) / M)%R).
  assert (V = D * D / (M + 1))%R as HV by (unfold V; field; lra).
  assert (0 < D * D)%R as HDD.
  { pose proof (Rle_0_sqr D) as P. unfold Rsqr in P.
    destruct P as [P|P]; [exact P |].
    symmetry in P. apply Rmult_integral in P. tauto. }
  assert (0 < V)%R as HVpos.
  { rewrite HV. apply Rdiv_lt_0_compat; lra. }
  destruct (Req_dec_T (sqrt V) 0) as [K|_].
  { exfalso. pose proof (sqrt_lt_R0 V HVpos). lra. }
  assert (forall kv : Z * Z, snd kv = c ->
            (if Rlt_dec 2 (Rabs (IZR (snd kv) - mu) / sqrt V)
             then true else false) = false) as Hquiet.
  { intros kv E. rewrite E. fold C. rewrite HCm.
    destruct (Rlt_dec 2 (Rabs (- D / (M + 1)) / sqrt V)) as [K|_];
      [| reflexivity].
    exfalso. apply (flag_square_iff _ V HVpos) in K. rewrite HV in K.
    assert (4 * (D * D / (M + 1)) - - D / (M + 1) * (- D / (M + 1))
            = D * D * (4 * M + 3) / ((M + 1) * (M + 1)))%R as F
      by (field; lra).
    assert (0 < D * D * (4 * M + 3) / ((M + 1) * (M + 1)))%R as P.
    { apply Rdiv_lt_0_compat; apply Rmult_lt_0_compat; lra. }
    lra. }
  assert ((if Rlt_dec 2 (Rabs (IZR (snd (k, x)) - mu) / sqrt V)
           then true else false) = true) as Hspike.
  { cbn [snd]. fold X. rewrite HXm.
    destruct (Rlt_dec 2 (Rabs (M * D / (M + 1)) / sqrt V)) as [_|K];
      [reflexivity |].
    exfalso. apply K. apply (flag_square_iff _ V HVpos). rewrite HV.
    assert (M * D / (M + 1) * (M * D / (M + 1)) - 4 * (D * D / (M + 1))
            = D * D * ((M - 5) * (M + 1) + 1) / ((M + 1) * (M + 1)))%R as F
      by (field; lra).
    assert (0 <= (M - 5) * (M + 1))%R as Q by (apply Rmult_le_pos; lra).
    assert (0 < D * D * ((M - 5) * (M + 1) + 1) / ((M + 1) * (M + 1)))%R as P.
    { apply Rdiv_lt_0_compat; apply Rmult_lt_0_compat; lra. }
    lra. }
  unfold s. rewrite filter_app. cbn [filter]. rewrite Hspike.
  rewrite !filter_none; [reflexivity | |].
  - intros kv Hkv. apply Hquiet, Hc2, Hkv.
  - intros kv Hkv. apply Hquiet, Hc1, Hkv.
Qed.

Lemma lone_spike_flagged_witness : anomalies series_lone_spike = [(662, 8)].
Proof.
  apply (lone_spike_flagged [(660, 7); (661, 7)] [(663, 7); (664, 7); (665, 7)]
           662 7 8).
  - simpl. intros kv H.
    repeat (destruct H as [<-|H]; [reflexivity |]). contradiction.
  - lia.
  - simpl. lia.
Defined.

(** ** Filtered views *)

Lemma row_sum_nonneg (cols : list string) (r : Row) :
  (forall c, In c cols -> 0 <= cell c r) -> 0 <= row_sum cols r.
Proof.
  unfold row_sum. induction cols as [|c cols IH]; simpl; intros H; [lia |].
  pose proof (H c (or_introl eq_refl)) as Hc.
  assert (0 <= zsum (map (fun c0 => cell c0 r) cols)) as P
    by (apply IH; intros c0 Hc0; apply H; right; exact Hc0).
  lia.
Qed.

Lemma total_filter_bounds (cols : list string) (f : Row -> bool)
  (rs : list Row) :
  (forall r c, In r rs -> In c cols -> 0 <= cell c r) ->
  0 <= total cols (filter f rs) <= total cols rs.
Proof.
  induction rs as [|r rs IH]; intros H; simpl.
  - rewrite total_nil. lia.
  - assert (0 <= row_sum cols r) as Pr
      by (apply row_sum_nonneg; intros c Hc; apply (H r c); [left |]; auto).
    assert (0 <= total cols (filter f rs) <= total cols rs) as P
      by (apply IH; intros r0 c Hr0 Hc; apply (H r0 c); [right |]; auto).
    destruct (f r); rewrite ?total_cons; lia.
Qed.

Lemma wrap64_add_r (a b : Z) : wrap64 (a + wrap64 b) = wrap64 (a + b).
Proof.
  unfold wrap64. f_equal.
  replace (a + ((b + 2 ^ 63) mod 2 ^ 64 - 2 ^ 63) + 2 ^ 63)
    with (a + (b + 2 ^ 63) mod 2 ^ 64) by lia.
  rewrite Zplus_mod_idemp_r. f_equal. lia.
Qed.

Lemma wrap64_add_l (a b : Z) : wrap64 (wrap64 a + b) = wrap64 (a + b).
Proof.
  rewrite (Z.add_comm (wrap64 a)), wrap64_add_r. f_equal. lia.
Qed.

Lemma wrap64_small (z : Z) : - 2 ^ 63 <= z < 2 ^ 63 -> wrap64 z = z.
Proof.
  intros H. unfold wrap64. rewrite Z.mod_small; lia.
Qed.

Lemma sum64_wrap (l : list Z) : sum64 l = wrap64 (zsum l).
Proof.
  induction l as [|x l IH]; simpl; [reflexivity |].
  rewrite IH. apply wrap64_add_r.
Qed.

(** The int64 total is the exact total reduced into the int64 range. *)
Lemma total64_wrap (cols : list string) (rs : list Row) :
  total64 cols rs = wrap64 (total cols rs).
Proof.
  unfold total64, total, column_sums. rewrite sum64_wrap.
  induction cols as [|c cols IH]; simpl; [reflexivity |].
  rewrite sum64_wrap, wrap64_add_l, <- wrap64_add_r, IH, wrap64_add_r.
  reflexivity.
Qed.

(** X11: On int64 count columns (no empty cell) with counts that are not
    negative and an exact unfiltered total below 2^63, the wrapping int64
    sums of the program are the exact sums, and the total of every state
    view lies between 0 and the unfiltered total.  Beyond that bound the
    sum wraps: counts 2^63 - 1 and 1 give the total -2^63. *)
Theorem filtered_total_bounds (cols : list string) (st : string)
  (df : DataFrame) :
  (forall r c, In r (rows df) -> In c cols ->
     exists x, assoc c (counts r) = Some x /\ 0 <= x) ->
  total cols (rows df) < 2 ^ 63 ->
  total64 cols (rows df) = total cols (rows df)
  /\ total64 cols (rows (filtered st df)) = total cols (rows (filtered st df))
  /\ 0 <= total64 cols (rows (filtered st df)) <= total64 cols (rows df)
  /\ total64 enrol_cols (rows enrol_overflow) = - 2 ^ 63.
Proof.
  intros Hcells Hmax.
  assert (forall r c, In r (rows df) -> In c cols -> 0 <= cell c r) as H.
  { intros r c Hr Hc. destruct (Hcells r c Hr Hc) as [x [E Hx]].
    unfold cell. rewrite E. exact Hx. }
  assert (0 <= total cols (rows (filtered st df)) <= total cols (rows df)) as B.
  { unfold filtered. destruct (negb (st =? "All")%string).
    - simpl. apply total_filter_bounds. exact H.
    - pose proof (total_filter_bounds cols (fun _ => true) (rows df) H) as P.
      rewrite filter_all in P by reflexivity. exact P. }
  assert (total64 enrol_cols (rows enrol_overflow) = - 2 ^ 63) as Hover
    by (vm_compute; reflexivity).
  rewrite Hover, !total64_wrap, !wrap64_small by lia.
  repeat split; lia.
Qed.

Lemma filtered_total_bounds_witness :
  total64 enrol_cols (rows (filtered "Goa" enrol_two)) = 6
  /\ 0 <= total64 enrol_cols (rows (filtered "Goa" enrol_two))
       <= total64 enrol_cols (rows enrol_two).
Proof.
  split; [vm_compute; reflexivity |].
  apply (filtered_total_bounds enrol_cols "Goa" enrol_two).
  - intros r c Hr Hc. simpl in Hr, Hc.
    destruct Hr as [<-|[<-|[<-|[]]]];
      destruct Hc as [<-|[<-|[<-|[]]]];
      eexists; (split; [reflexivity | lia]).
  - vm_compute. reflexivity.
Defined.

(** X12: A state offered by the select box selects at least one enrolment
    record: the enrolment view of an offered state is never empty. *)
Theorem offered_state_has_records (E : DataFrame) (st : string) :
  In st (tl (state_options E)) ->
  exists r, In r (rows (filtered st E)) /\ state r = Some st.
Proof.
  unfold state_options. cbn [tl]. intros Hst.
  apply state_values_In in Hst. destruct Hst as [r [Hr Hs]].
  exists r. split; [| exact Hs]. unfold filtered.
  destruct (negb (st =? "All")%string); [| exact Hr].
  simpl. apply filter_In. split; [exact Hr |].
  unfold state_is. rewrite Hs. apply String.eqb_refl.
Qed.

Lemma offered_state_has_records_witness :
  exists r, In r (rows (filtered "Goa" enrol_two)) /\ state r = Some "Goa".
Proof.
  apply (offered_state_has_records enrol_two "Goa").
  vm_compute. left. reflexivity.
Defined.

Lemma filter_state_fixed (strptime : string -> option (Z * Z * Z))
  (st : string) (rs : list Row) :
  filter (state_is st) (map (fix_row strptime) rs)
  = map (fix_row strptime) (filter (state_is st) rs).
Proof.
  induction rs as [|r rs IH]; simpl; [reflexivity |].
  replace (state_is st (fix_row strptime r)) with (state_is st r)
    by reflexivity.
  destruct (state_is st r); simpl; rewrite IH; reflexivity.
Qed.

(** X13: The date loop and the filter commute: normalising the dates changes
    neither the state of a record nor, therefore, the records a selection
    keeps. *)
Theorem filter_after_date_fix (strptime : string -> option (Z * Z * Z))
  (st : string) (df : DataFrame) :
  filtered st (date_fixed strptime df) = date_fixed strptime (filtered st df)
  /\ state_options (date_fixed strptime df) = state_options df.
Proof.
  split.
  - unfold filtered. destruct (negb (st =? "All")%string); [| reflexivity].
    unfold select_state, date_fixed. cbn [columns rows]. f_equal.
    apply filter_state_fixed.
  - unfold state_options, state_values. f_equal. f_equal. f_equal.
    unfold date_fixed. cbn [rows].
    induction (rows df) as [|r rs IH]; simpl; [reflexivity |].
    destruct (state r); rewrite IH; reflexivity.
Qed.

(** ** Anomalies under a common shift *)

Lemma values_shift (a : Z) (s : Series) :
  values (shift a s) = map (fun v => v + IZR a)%R (values s).
Proof.
  unfold values, shift. rewrite !map_map. apply map_ext.
  intros kv. cbn [snd]. apply plus_IZR.
Qed.

Lemma rsum_shift (A : R) (vs : list R) :
  rsum (map (fun v => v + A)%R vs) = (rsum vs + INR (length vs) * A)%R.
Proof.
  induction vs as [|v vs IH].
  - simpl. lra.
  - change (length (v :: vs)) with (S (length vs)). rewrite S_INR.
    cbn [map]. rewrite !rsum_cons, IH. lra.
Qed.

Lemma sqdev_shift (A m : R) (vs : list R) :
  sqdev (m + A) (map (fun v => v + A)%R vs) = sqdev m vs.
Proof.
  induction vs as [|v vs IH]; [reflexivity |].
  cbn [map]. rewrite !sqdev_cons, IH. lra.
Qed.

Lemma filter_map_swap {A B : Type} (p : B -> bool) (f : A -> B) (l : list A) :
  filter p (map f l) = map f (filter (fun a => p (f a)) l).
Proof.
  induction l as [|a l IH]; simpl; [reflexivity |].
  destruct (p (f a)); simpl; rewrite IH; reflexivity.
Qed.

(** X14: Adding the same amount to every month changes no flag: the anomalies of
    the shifted series are the shifted anomalies of the series. *)
Theorem anomalies_shift (a : Z) (s : Series) :
  anomalies (shift a s) = shift a (anomalies s).
Proof.
  rewrite !anomalies_detect. unfold detectAnomalies.
  rewrite values_shift, length_map.
  destruct (length (values s) <? 2)%nat eqn:Hn; [reflexivity |].
  apply Nat.ltb_ge in Hn.
  pose proof (INR_length_pos (values s) Hn) as Hp.
  set (n := INR (length (values s))) in *.
  rewrite rsum_shift. fold n.
  replace ((rsum (values s) + n * IZR a) / n)%R
    with (rsum (values s) / n + IZR a)%R by (field; lra).
  rewrite sqdev_shift.
  set (mu := (rsum (values s) / n)%R).
  set (sigma := sqrt (sqdev mu (values s) / (n - 1))).
  destruct (Req_dec_T sigma 0); [reflexivity |].
  unfold shift at 1 2. rewrite filter_map_swap. f_equal.
  apply filter_ext. intros kv. cbn [snd]. rewrite plus_IZR.
  replace (IZR (snd kv) + IZR a - (mu + IZR a))%R
    with (IZR (snd kv) - mu)%R by lra.
  reflexivity.
Qed.

(** ** The text of a metric *)

Lemma group3_step (a b c d : ascii) (rest : list ascii) :
  group3 (a :: b :: c :: d :: rest)
  = a :: b :: c :: ","%char :: group3 (d :: rest).
Proof.
  reflexivity.
Qed.

Lemma filter_fixed_head {A : Type} (p : A -> bool) (a : A) (l : list A) :
  filter p (a :: l) = a :: l -> p a = true /\ filter p l = l.
Proof.
  simpl. destruct (p a) eqn:E; intros H.
  - injection H as H. auto.
  - exfalso. pose proof (filter_length_le p l) as P.
    rewrite H in P. simpl in P. lia.
Qed.

Lemma group3_strip (n : nat) (l : list ascii) :
  (length l <= n)%nat ->
  filter (fun c => negb (Ascii.eqb c ",")) l = l ->
  filter (fun c => negb (Ascii.eqb c ",")) (group3 l) = l.
Proof.
  revert l. induction n as [|n IH]; intros l Hl Hf.
  - destruct l; [reflexivity | simpl in Hl; lia].
  - destruct l as [|a [|b [|c [|d rest]]]]; try exact Hf.
    rewrite group3_step.
    apply filter_fixed_head in Hf. destruct Hf as [Ea Hf].
    apply filter_fixed_head in Hf. destruct Hf as [Eb Hf].
    apply filter_fixed_head in Hf. destruct Hf as [Ec Hf].
    cbn [filter]. rewrite Ea, Eb, Ec, Ascii.eqb_refl. cbn [negb].
    do 3 f_equal. apply IH; [simpl in Hl |- *; lia | exact Hf].
Qed.

Lemma thousands_strip (s : string) :
  strip_commas s = s -> strip_commas (thousands s) = s.
Proof.
  unfold strip_commas, thousands. intros H.
  rewrite list_ascii_of_string_of_list_ascii, filter_rev.
  assert (filter (fun c => negb (Ascii.eqb c ",")) (list_ascii_of_string s)
          = list_ascii_of_string s) as Hl.
  { rewrite <- (list_ascii_of_string_of_list_ascii
                  (filter _ (list_ascii_of_string s))).
    rewrite H. reflexivity. }
  rewrite (group3_strip (length (rev (list_ascii_of_string s)))).
  - rewrite rev_involutive. apply string_of_list_ascii_of_string.
  - apply Nat.le_refl.
  - rewrite filter_rev, Hl. reflexivity.
Qed.

Lemma digits_filter (d : Decimal.uint) :
  filter (fun c => negb (Ascii.eqb c ","))
         (list_ascii_of_string (DecimalString.NilEmpty.string_of_uint d))
  = list_ascii_of_string (DecimalString.NilEmpty.string_of_uint d).
Proof.
  induction d as [|d IH|d IH|d IH|d IH|d IH|d IH|d IH|d IH|d IH|d IH];
    simpl; [reflexivity | ..]; rewrite IH; reflexivity.
Qed.

Lemma digits_no_comma (d : Decimal.uint) :
  strip_commas (DecimalString.NilEmpty.string_of_uint d)
  = DecimalString.NilEmpty.string_of_uint d.
Proof.
  unfold strip_commas. rewrite digits_filter.
  apply string_of_list_ascii_of_string.
Qed.

Lemma digits_zero_no_comma (d : Decimal.uint) :
  strip_commas (DecimalString.NilZero.string_of_uint d)
  = DecimalString.NilZero.string_of_uint d.
Proof.
  destruct d; try apply digits_no_comma. reflexivity.
Qed.

(** X15: The text of a metric, its thousands separators removed, is the
    decimal writing of the total and reads back as the total. *)
Theorem format_int_round_trip (n : Z) :
  strip_commas (format_int n)
  = DecimalString.NilZero.string_of_int (Z.to_int n)
  /\ option_map Z.of_int
       (DecimalString.NilZero.int_of_string (strip_commas (format_int n)))
     = Some n.
Proof.
  assert (strip_commas (format_int n)
          = DecimalString.NilZero.string_of_int (Z.to_int n)) as H.
  { unfold format_int. destruct (Z.to_int n) as [d|d]; simpl.
    - apply thousands_strip, digits_zero_no_comma.
    - change (strip_commas
                (String "-" (thousands (DecimalString.NilZero.string_of_uint d))))
        with (String "-"
                (strip_commas
                   (thousands (DecimalString.NilZero.string_of_uint d)))).
      f_equal. apply thousands_strip, digits_zero_no_comma. }
  split; [exact H |].
  rewrite H, DecimalString.NilZero.isi.
  - simpl. f_equal. apply DecimalZ.of_to.
  - destruct n; simpl; try discriminate.
    intros [= K]. apply (DecimalPos.Unsigned.to_uint_nonnil _ K).
  - destruct n; simpl; try discriminate.
    intros [= K]. apply (DecimalPos.Unsigned.to_uint_nonnil _ K).
Qed.

Example format_int_examples :
  format_int 1234567 = "1,234,567" /\ format_int 100 = "100"
  /\ format_int 0 = "0" /\ format_int (-98765) = "-98,765".
Proof.
  repeat split; vm_compute; reflexivity.
Qed.

(** ** The date loop and the aggregates *)

Lemma total_fix_rows (strptime : string -> option (Z * Z * Z))
  (cols : list string) (rs : list Row) :
  total cols (map (fix_row strptime) rs) = total cols rs.
Proof.
  induction rs as [|r rs IH]; simpl; [reflexivity |].
  rewrite !total_cons, IH, row_sum_fix_row. reflexivity.
Qed.

Lemma groupby_month_all_null (rs : list Row) :
  (forall r, In r rs -> month r = None) -> groupby_month rs = [].
Proof.
  intros H. destruct (groupby_month_spec rs) as [_ [K _]].
  destruct (groupby_month rs) as [|[k g] l] eqn:E; [reflexivity |].
  exfalso. destruct (proj1 (K k) (or_introl eq_refl)) as [r [Hr Hm]].
  rewrite (H r Hr) in Hm. discriminate Hm.
Qed.

(** X17: The date loop changes no total, whatever the date texts are; and when
    no date text of a table parses, its monthly series is empty while its
    total is the one of the table as read. *)
Theorem date_loop_keeps_totals (strptime : string -> option (Z * Z * Z))
  (cols : list string) (df : DataFrame) :
  total cols (rows (date_fixed strptime df)) = total cols (rows df)
  /\ ((forall r, In r (rows df) ->
         exists s, date r = Text s /\ strptime s = None) ->
      monthly_sum cols (rows (date_fixed strptime df)) = []).
Proof.
  split; [apply total_fix_rows |].
  intros H. unfold monthly_sum. rewrite groupby_month_all_null; [reflexivity |].
  intros r Hr. unfold date_fixed in Hr. cbn [rows] in Hr.
  apply in_map_iff in Hr. destruct Hr as [r0 [<- Hr0]].
  destruct (H r0 Hr0) as [s [Hd Hp]].
  unfold fix_row, set_month, set_date. cbn [month date].
  rewrite Hd. simpl. rewrite Hp. reflexivity.
Qed.

Lemma date_loop_keeps_totals_witness :
  monthly_sum demo_cols
    (rows (date_fixed strptime_dmy
             (mkDF demo_header
                   [demo_row (Some "Goa") "2025-03-01" 4 5;
                    demo_row (Some "Kerala") "2025-04-01" 6 7]))) = []
  /\ total demo_cols
       (rows (date_fixed strptime_dmy
                (mkDF demo_header
                      [demo_row (Some "Goa") "2025-03-01" 4 5;
                       demo_row (Some "Kerala") "2025-04-01" 6 7]))) = 22.
Proof.
  split; [| vm_compute; reflexivity].
  apply (date_loop_keeps_totals strptime_dmy demo_cols).
  simpl. intros r [<-|[<-|[]]]; eexists; split; reflexivity.
Defined.
